(** * The editor state reducers of [src/editor/state.js]

    A shallow embedding of the Redux reducers of the block editor and the
    properties of its specification, settled against the code.

    JavaScript objects are immutable here (the reducers never assign to a
    property), but their identity is observable: the store's consumers compare
    states with [===].  An object is therefore modelled as its contents paired
    with the address it was allocated at, and the reducers run in a small
    monad that threads the allocator and propagates a thrown [TypeError]. *)

From stdpp Require Import base option list gmap sets strings.
From Stdlib Require Import ZArith Lia Ascii.

Local Open Scope string_scope.
Local Open Scope list_scope.
Local Open Scope Z_scope.

(** ** Values, objects and references *)

Definition loc := nat.

(** A value the reducers only copy around: a primitive, or the address of
    an object they never look into. *)
Inductive val :=
  | VUndef
  | VNull
  | VBool (b : bool)
  | VStr (s : string)
  | VObj (l : loc).

#[global] Instance val_eq_dec : EqDecision val.
Proof. solve_decision. Defined.

(** JavaScript's ToBoolean (there are no numbers among [val]). *)
Definition truthy (v : val) : bool :=
  match v with
  | VUndef | VNull => false
  | VBool b => b
  | VStr s => if decide (s = "") then false else true
  | VObj _ => true
  end.

(** The own enumerable properties of a plain object. *)
Abbreviation object := (gmap string val).

(** An object (or array) together with its identity.  [r1 === r2] in the
    source is equality of addresses. *)
Record ref (A : Type) := Ref { addr : loc; obj : A }.
Arguments Ref {A} addr obj.
Arguments addr {A} r.
Arguments obj {A} r.

Definition same_ref {A B} (r1 : ref A) (r2 : ref B) : Prop := addr r1 = addr r2.

(** An optional string-valued property ([None]: the property is absent and
    reads as [undefined]) as a value, as a property key, and its
    truthiness: the empty string is falsy. *)
Definition of_str (o : option string) : val :=
  match o with Some s => VStr s | None => VUndef end.

Definition to_key (o : option string) : string :=
  match o with Some s => s | None => "undefined" end.

Definition truthy_str (o : option string) : bool := truthy (of_str o).

(** ** The allocation and exception monad *)

Inductive exn := TypeError (msg : string).

Inductive result (A : Type) :=
  | Ok (a : A) (next : loc)
  | Throw (e : exn).
Arguments Ok {A} a next.
Arguments Throw {A} e.

Definition M (A : Type) : Type := loc → result A.

Definition ret {A} (a : A) : M A := λ n, Ok a n.

Definition bind {A B} (c : M A) (k : A → M B) : M B :=
  λ n, match c n with
       | Ok a n' => k a n'
       | Throw e => Throw e
       end.

Definition throw {A} (msg : string) : M A := λ _, Throw (TypeError msg).

(** An object or array literal: a new object at the next free address. *)
Definition new {A} (o : A) : M (ref A) := λ n, Ok (Ref n o) (S n).

Notation "'do' x <- c ; k" := (bind c (λ x, k))
  (at level 10, x name, c at level 100, k at level 200).

(** A default parameter [state = d]: [d] is evaluated only when the
    argument is [undefined]. *)
Definition default_param {A} (arg : option A) (d : M A) : M A :=
  match arg with Some a => ret a | None => d end.

Definition returns {A} (c : M A) (n : loc) : Prop := ∃ a n', c n = Ok a n'.

(** ** Arrays *)

Section arrays.
Context {A : Type} `{EqDecision A}.

(** [Array.prototype.indexOf]: the first index holding [x], or [-1]. *)
Fixpoint indexOf_from (xs : list A) (x : A) (i : Z) : Z :=
  match xs with
  | [] => -1
  | y :: ys => if decide (x = y) then i else indexOf_from ys x (i + 1)
  end.

Definition indexOf (xs : list A) (x : A) : Z := indexOf_from xs x 0.

(** [Array.prototype.slice( start, end )]: a negative bound counts from
    the end, and both are clamped to the array; an omitted [end] is the
    length. *)
Definition relative (len i : Z) : Z :=
  if i <? 0 then Z.max (len + i) 0 else Z.min i len.

Definition slice (xs : list A) (start : Z) (end_ : option Z) : list A :=
  let len := Z.of_nat (length xs) in
  let k := relative len start in
  let final := match end_ with Some e => relative len e | None => len end in
  take (Z.to_nat (final - k)) (drop (Z.to_nat k) xs).

(** lodash's [without]: a new array without the values equal to [x]. *)
Definition without (xs : list A) (x : A) : list A :=
  filter (λ y, y ≠ x) xs.
End arrays.

(** [xs[ i ]] on an array whose elements may be [undefined]: reading out of
    range gives [undefined] too. *)
Definition at_index {A} (xs : list (option A)) (i : Z) : option A :=
  if i <? 0 then None else mjoin (xs !! Z.to_nat i).

(** lodash's [last]. *)
Definition last_of {A} (xs : list (option A)) : option A :=
  at_index xs (Z.of_nat (length xs) - 1).

(** ** Blocks and actions *)

(** A block node [{ uid, ...props }]. *)
Record block := Block { block_uid : string; block_props : object }.

Definition block_obj (b : block) : object :=
  <["uid" := VStr (block_uid b)]> (block_props b).

(** A dispatched action.  Apart from [type], a property may be absent. *)
Module Action.
Record t := Make {
  type : string;
  post : val;
  blockNodes : option (list block);
  uid : option string;
  updates : option object;
  block : option block;
  after : option string;
  selected : bool;
  hovered : bool;
  config : option (ref object);
  mode : option string;
  isNew : val;
  error : val
}.

(** [{ type }] *)
Definition bare (type : string) : t :=
  Make type VUndef None None None None None false false None None VUndef VUndef.
End Action.

Abbreviation action := Action.t.

(** ** The document content reducers *)

Abbreviation blocks := (gmap string (option object)).
Abbreviation order := (list (option string)).

(** lodash's [keyBy( nodes, 'uid' )]: later nodes win. *)
Definition keyBy (nodes : list block) : blocks :=
  foldl (λ m b, <[block_uid b := Some (block_obj b)]> m) ∅ nodes.

(** lodash's [omit( state, key )] for a key that lodash takes as one
    property name: a new object without that key.  lodash reads a string
    that is no property of the object and has a dot or a bracket as a path
    into the object (it then clones the object deeply and unsets the
    property at the end of the path); that reading is outside this
    definition, and every statement about what a removal leaves in the
    block map assumes [plain_key]. *)
Definition omit (state : blocks) (key : string) : blocks := delete key state.

(** A sufficient condition for lodash's [isKey( key, state )]: the key is a
    property of the object, or it has no dot and no opening bracket, so
    that the pattern of a deep property cannot match it. *)
Fixpoint no_path_syntax (key : string) : bool :=
  match key with
  | EmptyString => true
  | String c rest =>
      negb (Ascii.eqb c "."%char || Ascii.eqb c "["%char) && no_path_syntax rest
  end.

Definition plain_key (state : blocks) (key : string) : bool :=
  bool_decide (key ∈ dom state) || no_path_syntax key.

(** [state[ key ]] spread into an object literal: nothing when the entry
    is missing or [undefined]. *)
Definition spread_entry (state : blocks) (key : string) : object :=
  default ∅ (mjoin (state !! key)).

Definition post (state : val) (action : action) : M val :=
  do state <- (if decide (state = VUndef)
               then (do o <- new (∅ : object); ret (VObj (addr o)))
               else ret state);
  if decide (Action.type action = "EDIT_POST") then
    ret (if truthy (Action.post action) then Action.post action else state)
  else if decide (Action.type action = "POST_UPDATE_REQUEST_SUCCESS") then
    ret (Action.post action)
  else ret state.

Definition blocksByUid (state : option (ref blocks)) (action : action)
  : M (ref blocks) :=
  do state <- default_param state (new ∅);
  if decide (Action.type action = "EDIT_POST") then
    new (keyBy (default [] (Action.blockNodes action)))
  else if decide (Action.type action = "UPDATE_BLOCK") then
    let key := to_key (Action.uid action) in
    new (<[key := Some (default ∅ (Action.updates action)
                          ∪ spread_entry (obj state) key)]> (obj state))
  else if decide (Action.type action = "INSERT_BLOCK") then
    match Action.block action with
    | None => throw "Cannot read property 'uid' of undefined"
    | Some b => new (<[block_uid b := Some (block_obj b)]> (obj state))
    end
  else if decide (Action.type action = "SWITCH_BLOCK_TYPE") then
    new (<[to_key (Action.uid action) := block_obj <$> Action.block action]>
           (obj state))
  else if decide (Action.type action = "REMOVE_BLOCK") then
    new (omit (obj state) (to_key (Action.uid action)))
  else ret state.

Definition blockOrder (state : option (ref order)) (action : action)
  : M (ref order) :=
  do state <- default_param state (new []);
  let xs := obj state in
  if decide (Action.type action = "EDIT_POST") then
    match Action.blockNodes action with
    | None => throw "Cannot read property 'map' of undefined"
    | Some nodes => new ((λ b, Some (block_uid b)) <$> nodes)
    end
  else if decide (Action.type action = "INSERT_BLOCK") then
    let position :=
      if truthy_str (Action.after action)
      then indexOf xs (Action.after action) + 1
      else Z.of_nat (length xs) in
    match Action.block action with
    | None => throw "Cannot read property 'uid' of undefined"
    | Some b =>
        new (slice xs 0 (Some position)
               ++ [Some (block_uid b)]
               ++ slice xs position None)
    end
  else if decide (Action.type action = "MOVE_BLOCK_UP") then
    if decide (Action.uid action = at_index xs 0) then ret state
    else
      let index := indexOf xs (Action.uid action) in
      let swappedUid := at_index xs (index - 1) in
      new (slice xs 0 (Some (index - 1))
             ++ [Action.uid action; swappedUid]
             ++ slice xs (index + 1) None)
  else if decide (Action.type action = "MOVE_BLOCK_DOWN") then
    if decide (Action.uid action = last_of xs) then ret state
    else
      let index := indexOf xs (Action.uid action) in
      let swappedUid := at_index xs (index + 1) in
      new (slice xs 0 (Some index)
             ++ [swappedUid; Action.uid action]
             ++ slice xs (index + 2) None)
  else if decide (Action.type action = "REMOVE_BLOCK") then
    new (without xs (Action.uid action))
  else ret state.

(** ** The selection and hover reducers *)

(** The selected block state, [{ uid, typing, focus }] or [{}]: a property
    that is absent reads as [undefined]. *)
Module Selection.
Record t := Make {
  uid : option string;
  typing : option bool;
  focus : option (ref object)
}.

(** [{}] *)
Definition empty : t := Make None None None.
End Selection.

Abbreviation selection := Selection.t.

(** [{ uid, typing, focus: {} }].  Only the equality of addresses is
    observable, so the order in which the two objects are allocated is
    immaterial. *)
Definition select (uid : option string) (typing : bool) : M (ref selection) :=
  do focus <- new (∅ : object);
  new (Selection.Make uid (Some typing) (Some focus)).

Definition selectedBlock (state : option (ref selection)) (action : action)
  : M (ref selection) :=
  do state <- default_param state (new Selection.empty);
  let st := obj state in
  if decide (Action.type action = "TOGGLE_BLOCK_SELECTED") then
    if negb (Action.selected action) then
      if decide (Selection.uid st = Action.uid action)
      then new Selection.empty
      else ret state
    else
      if decide (Action.uid action = Selection.uid st)
      then ret state
      else select (Action.uid action) false
  else if decide (Action.type action = "MOVE_BLOCK_UP"
                  ∨ Action.type action = "MOVE_BLOCK_DOWN") then
    if decide (Action.uid action = Selection.uid st)
    then ret state
    else select (Action.uid action) false
  else if decide (Action.type action = "INSERT_BLOCK") then
    match Action.block action with
    | None => throw "Cannot read property 'uid' of undefined"
    | Some b => select (Some (block_uid b)) false
    end
  else if decide (Action.type action = "UPDATE_FOCUS") then
    do focus <- default_param (Action.config action) (new ∅);
    new (Selection.Make
           (Action.uid action)
           (if decide (Selection.uid st = Action.uid action)
            then Selection.typing st else Some false)
           (Some focus))
  else if decide (Action.type action = "START_TYPING") then
    if decide (Action.uid action ≠ Selection.uid st)
    then select (Action.uid action) true
    else new (Selection.Make (Selection.uid st) (Some true) (Selection.focus st))
  else ret state.

(** The hovered block is a primitive ([null] or a uid): nothing is
    allocated and nothing is dereferenced. *)
Definition hoveredBlock (state : val) (action : action) : val :=
  let state := if decide (state = VUndef) then VNull else state in
  if decide (Action.type action = "TOGGLE_BLOCK_HOVERED") then
    if Action.hovered action then of_str (Action.uid action) else VNull
  else if decide (Action.type action = "TOGGLE_BLOCK_SELECTED") then
    if Action.selected action then VNull else state
  else if decide (Action.type action = "START_TYPING") then VNull
  else state.

(** ** Mode, sidebar and network status *)

Definition mode (state : val) (action : action) : val :=
  let state := if decide (state = VUndef) then VStr "visual" else state in
  if decide (Action.type action = "SWITCH_MODE")
  then of_str (Action.mode action)
  else state.

Definition isSidebarOpened (state : val) (action : action) : val :=
  let state := if decide (state = VUndef) then VBool false else state in
  if decide (Action.type action = "TOGGLE_SIDEBAR")
  then VBool (negb (truthy state))
  else state.

(** [{ requesting, successful, error, isNew }] *)
Definition status (requesting successful : bool) (error isNew : val) : object :=
  {[ "requesting" := VBool requesting;
     "successful" := VBool successful;
     "error" := error;
     "isNew" := isNew ]}.

Definition api (state : option (ref object)) (action : action)
  : M (ref object) :=
  do state <- default_param state (new ∅);
  if decide (Action.type action = "POST_UPDATE_REQUEST") then
    new (status true false VNull (Action.isNew action))
  else if decide (Action.type action = "POST_UPDATE_REQUEST_SUCCESS") then
    new (status false true VNull (Action.isNew action))
  else if decide (Action.type action = "POST_UPDATE_REQUEST_FAILURE") then
    new (status false true (Action.error action) (Action.isNew action))
  else ret state.

(** ** The document content state

    [editor] is built from the three reducers [post], [blocksByUid] and
    [blockOrder]: each of them is run on its own key of the state, with the
    same action. *)
Module Content.
Record t := Make {
  post : val;
  blocksByUid : ref blocks;
  blockOrder : ref order
}.
End Content.

Abbreviation content := Content.t.

Definition slices (state : content) (action : action) : M content :=
  do p <- post (Content.post state) action;
  do m <- blocksByUid (Some (Content.blocksByUid state)) action;
  do o <- blockOrder (Some (Content.blockOrder state)) action;
  ret (Content.Make p m o).

(** The content state before any action: every reducer called with
    [undefined] and an action it does not handle. *)
Definition initial_content : M content :=
  let init := Action.bare "@@INIT" in
  do p <- post VUndef init;
  do m <- blocksByUid None init;
  do o <- blockOrder None init;
  ret (Content.Make p m o).

(** No key of the content state changed: [===] on each of them. *)
Definition unchanged (c c' : content) : bool :=
  bool_decide (Content.post c = Content.post c')
  && bool_decide (addr (Content.blocksByUid c) = addr (Content.blocksByUid c'))
  && bool_decide (addr (Content.blockOrder c) = addr (Content.blockOrder c')).

(** [set(blockOrder) == keys(blocksByUid)]: the order holds the keys of the
    map, and nothing else. *)
Definition consistent (m : blocks) (xs : order) : Prop :=
  list_to_set xs = (set_map Some (dom m) : gset (option string)).

Definition content_consistent (c : content) : Prop :=
  consistent (obj (Content.blocksByUid c)) (obj (Content.blockOrder c)).

(** ** The history of the document content *)

Record history := History {
  past : list content;
  present : content;
  future : list content
}.

Section history_engine.
(** The event kinds that undo and redo, and the depth of the history that
    is kept ([None]: all of it), are fixed outside of the editor state. *)
Variables (undoKind redoKind : string) (depth : option nat).

Definition resetTypes : list string := ["EDIT_POST"].

(** The oldest snapshots are dropped first. *)
Definition retain (snapshots : list content) : list content :=
  match depth with
  | None => snapshots
  | Some d => drop (length snapshots - d)%nat snapshots
  end.

(** Modelled from the spec: [combineUndoableReducers] is imported from
    [utils/undoable-reducer], which is not among the sources.  This is the
    algorithm of the History Engine: step 1 runs the slices on [present];
    a reset kind replaces [present] and clears [past] and [future]; undo
    and redo move a snapshot between [past], [present] and [future] and
    are no-ops on an empty stack; an event that changes no slice returns
    the same history record; any other event pushes [present] onto
    [past] and clears [future]. *)
Definition editor (state : option (ref history)) (action : action)
  : M (ref history) :=
  do state <- default_param state
                (do c <- initial_content; new (History [] c []));
  let h := obj state in
  do nextPresent <- slices (present h) action;
  if decide (Action.type action ∈ resetTypes) then
    new (History [] nextPresent [])
  else if decide (Action.type action = undoKind) then
    match list.last (past h) with
    | None => ret state
    | Some previous =>
        new (History (removelast (past h)) previous (present h :: future h))
    end
  else if decide (Action.type action = redoKind) then
    match future h with
    | [] => ret state
    | next :: rest =>
        new (History (retain (past h ++ [present h])) next rest)
    end
  else if unchanged (present h) nextPresent then ret state
  else new (History (retain (past h ++ [present h])) nextPresent []).
End history_engine.

(** ** The declared event vocabulary

    The events of the store's interface and the action each of them
    dispatches, with the properties the reducers read. *)
Inductive event :=
  | LoadDocument (metadata : val) (nodes : list block)
  | UpdateBlock (uid : string) (updates : object)
  | InsertBlock (b : block) (anchor : option string)
  | ReplaceBlock (uid : string) (b : block)
  | RemoveBlock (uid : string)
  | MoveBlockUp (uid : string)
  | MoveBlockDown (uid : string)
  | SelectBlock (uid : string) (selected : bool)
  | HoverBlock (uid : string) (hovered : bool)
  | UpdateFocus (uid : string) (config : option (ref object))
  | StartTyping (uid : string)
  | SetMode (mode : string)
  | ToggleSidebar
  | RequestStarted (isNew : val)
  | RequestSucceeded (document isNew : val)
  | RequestFailed (error isNew : val).

Definition with_uid (type uid : string) : action :=
  Action.Make type VUndef None (Some uid) None None None false false None None
    VUndef VUndef.

Definition action_of (e : event) : action :=
  match e with
  | LoadDocument metadata nodes =>
      Action.Make "EDIT_POST" metadata (Some nodes) None None None None
        false false None None VUndef VUndef
  | UpdateBlock uid updates =>
      Action.Make "UPDATE_BLOCK" VUndef None (Some uid) (Some updates) None None
        false false None None VUndef VUndef
  | InsertBlock b anchor =>
      Action.Make "INSERT_BLOCK" VUndef None None None (Some b) anchor
        false false None None VUndef VUndef
  | ReplaceBlock uid b =>
      Action.Make "SWITCH_BLOCK_TYPE" VUndef None (Some uid) None (Some b) None
        false false None None VUndef VUndef
  | RemoveBlock uid => with_uid "REMOVE_BLOCK" uid
  | MoveBlockUp uid => with_uid "MOVE_BLOCK_UP" uid
  | MoveBlockDown uid => with_uid "MOVE_BLOCK_DOWN" uid
  | SelectBlock uid selected =>
      Action.Make "TOGGLE_BLOCK_SELECTED" VUndef None (Some uid) None None None
        selected false None None VUndef VUndef
  | HoverBlock uid hovered =>
      Action.Make "TOGGLE_BLOCK_HOVERED" VUndef None (Some uid) None None None
        false hovered None None VUndef VUndef
  | UpdateFocus uid config =>
      Action.Make "UPDATE_FOCUS" VUndef None (Some uid) None None None
        false false config None VUndef VUndef
  | StartTyping uid => with_uid "START_TYPING" uid
  | SetMode mode =>
      Action.Make "SWITCH_MODE" VUndef None None None None None
        false false None (Some mode) VUndef VUndef
  | ToggleSidebar => Action.bare "TOGGLE_SIDEBAR"
  | RequestStarted isNew =>
      Action.Make "POST_UPDATE_REQUEST" VUndef None None None None None
        false false None None isNew VUndef
  | RequestSucceeded document isNew =>
      Action.Make "POST_UPDATE_REQUEST_SUCCESS" document None None None None None
        false false None None isNew VUndef
  | RequestFailed error isNew =>
      Action.Make "POST_UPDATE_REQUEST_FAILURE" VUndef None None None None None
        false false None None isNew error
  end.

(** The identifier an update, a replacement or a move is aimed at. *)
Definition target (e : event) : option string :=
  match e with
  | UpdateBlock uid _ | ReplaceBlock uid _ | MoveBlockUp uid | MoveBlockDown uid =>
      Some uid
  | _ => None
  end.

(** ** Vocabulary of the specification *)

(** [ys] is [xs] with the neighbours [x] and [y] exchanged. *)
Definition exchanged {A} (x y : A) (xs ys : list A) : Prop :=
  ∃ pre post, xs = pre ++ x :: y :: post ∧ ys = pre ++ y :: x :: post.

(** Exactly two adjacent entries of [xs] have been exchanged. *)
Definition adjacent_swap {A} (xs ys : list A) : Prop :=
  ∃ x y, exchanged x y xs ys.

(** [ys] is [xs] without one of its occurrences of [x]. *)
Definition one_removed {A} (x : A) (xs ys : list A) : Prop :=
  ∃ pre post, xs = pre ++ x :: post ∧ ys = pre ++ post.

Definition occurrences {A} `{EqDecision A} (x : A) (xs : list A) : nat :=
  length (filter (λ y, y = x) xs).

(** The kinds each reducer has a [case] for. *)
Definition post_kinds : list string :=
  ["EDIT_POST"; "POST_UPDATE_REQUEST_SUCCESS"].
Definition blocksByUid_kinds : list string :=
  ["EDIT_POST"; "UPDATE_BLOCK"; "INSERT_BLOCK"; "SWITCH_BLOCK_TYPE";
   "REMOVE_BLOCK"].
Definition blockOrder_kinds : list string :=
  ["EDIT_POST"; "INSERT_BLOCK"; "MOVE_BLOCK_UP"; "MOVE_BLOCK_DOWN";
   "REMOVE_BLOCK"].
Definition selectedBlock_kinds : list string :=
  ["TOGGLE_BLOCK_SELECTED"; "MOVE_BLOCK_UP"; "MOVE_BLOCK_DOWN"; "INSERT_BLOCK";
   "UPDATE_FOCUS"; "START_TYPING"].
Definition hoveredBlock_kinds : list string :=
  ["TOGGLE_BLOCK_HOVERED"; "TOGGLE_BLOCK_SELECTED"; "START_TYPING"].
Definition mode_kinds : list string := ["SWITCH_MODE"].
Definition isSidebarOpened_kinds : list string := ["TOGGLE_SIDEBAR"].
Definition api_kinds : list string :=
  ["POST_UPDATE_REQUEST"; "POST_UPDATE_REQUEST_SUCCESS";
   "POST_UPDATE_REQUEST_FAILURE"].

(** The block an update, a replacement or a move is aimed at is in the
    document, and the uid of a removal is one that lodash's [omit] takes as
    a key. *)
Definition target_present (c : content) (e : event) : Prop :=
  (∀ uid, target e = Some uid → uid ∈ dom (obj (Content.blocksByUid c)))
  ∧ (∀ uid, e = RemoveBlock uid →
       plain_key (obj (Content.blocksByUid c)) uid = true).

(** The content states the store goes through when every such event is
    aimed at a block of the document, and every removal names a key. *)
Inductive reachable : content → Prop :=
  | reachable_initial c n n' :
      initial_content n = Ok c n' → reachable c
  | reachable_step c e c' n n' :
      reachable c → target_present c e →
      slices c (action_of e) n = Ok c' n' → reachable c'.

(** The content state after a sequence of events dispatched to a new
    store. *)
Definition run_events (events : list event) : M content :=
  foldl (λ c e, do state <- c; slices state (action_of e)) initial_content events.

Definition order_after (events : list event) : option order :=
  match run_events events 0%nat with
  | Ok c _ => Some (obj (Content.blockOrder c))
  | Throw _ => None
  end.

Definition consistent_after (events : list event) : Prop :=
  match run_events events 0%nat with
  | Ok c _ => content_consistent c
  | Throw _ => False
  end.

Definition keys_after (events : list event) : option (gset string) :=
  match run_events events 0%nat with
  | Ok c _ => Some (dom (obj (Content.blocksByUid c)))
  | Throw _ => None
  end.

(** ** The block category registry

    The module of the block categories keeps one object, [categories], that
    its functions assign to and delete from; what [console.error] is given
    is kept beside it. *)

Record registry := Registry {
  categories : gmap string (ref object);
  console : list string
}.

(** What [categories[ name ]] reads: nothing, a registered category, or a
    property that the object inherits from its prototype. *)
Inductive property :=
  | Undefined
  | Category (c : ref object)
  | Inherited (name : string).

Definition is_defined (p : property) : bool :=
  match p with Undefined => false | _ => true end.

Definition quoted (name : string) : string :=
  String "034"%char (String.append name (String "034"%char EmptyString)).

Section categories.
(** [categories] is an object literal: it inherits the properties of
    [Object.prototype], whose names are [prototype]; all of them are
    functions or objects, hence truthy.  [translate] is the [__] of the
    i18n module. *)
Variables (prototype : gset string) (translate : string → val).

Definition lookup_category (r : registry) (name : string) : property :=
  match categories r !! name with
  | Some c => Category c
  | None => if decide (name ∈ prototype) then Inherited name else Undefined
  end.

Definition console_error (msg : string) (r : registry) : registry :=
  Registry (categories r) (console r ++ [msg]).

Definition registerCategory (name : val) (settings : option object)
    (r : registry) (n : loc) : option (ref object) * registry * loc :=
  match name with
  | VStr name =>
      if is_defined (lookup_category r name) then
        (None,
         console_error
           (String.append "Category "
              (String.append (quoted name) " is already registered.")) r,
         n)
      else
        let category := Ref n (default ∅ settings ∪ {["name" := VStr name]}) in
        (Some category,
         Registry (<[name := category]> (categories r)) (console r),
         S n)
  | _ => (None, console_error "Category names must be strings." r, n)
  end.

Definition unregisterCategory (name : string) (r : registry)
  : property * registry :=
  if negb (is_defined (lookup_category r name)) then
    (Undefined,
     console_error
       (String.append "Block category "
          (String.append (quoted name) " is not registered.")) r)
  else
    (lookup_category r name,
     Registry (delete name (categories r)) (console r)).

Definition getCategory (name : string) (r : registry) : property :=
  lookup_category r name.

Definition getCategories (r : registry) : gmap string (ref object) :=
  categories r.

(** The registrations the module makes when it is loaded. *)
Definition register_titled (name title : string) (state : registry * loc)
  : registry * loc :=
  let '(_, r, n) :=
    registerCategory (VStr name) (Some {["title" := translate title]})
      state.1 state.2 in
  (r, n).

Definition loaded_registry : registry * loc :=
  register_titled "embed" "Embed"
    (register_titled "widgets" "Widgets"
       (register_titled "layout" "Layout Blocks"
          (register_titled "formatting" "Formatting"
             (register_titled "common" "Common Blocks"
                (Registry ∅ [], 0%nat))))).

(** A call of the module's interface. *)
Inductive call :=
  | Register (name : val) (settings : option object)
  | Unregister (name : string).

Definition perform (state : registry * loc) (c : call) : registry * loc :=
  match c with
  | Register name settings =>
      let '(_, r, n) := registerCategory name settings state.1 state.2 in (r, n)
  | Unregister name => ((unregisterCategory name state.1).2, state.2)
  end.
End categories.

(** The property names of [Object.prototype] (ECMAScript 5 and its
    annex B). *)
Definition Object_prototype : gset string :=
  list_to_set
    ["constructor"; "hasOwnProperty"; "isPrototypeOf"; "propertyIsEnumerable";
     "toLocaleString"; "toString"; "valueOf"; "__proto__";
     "__defineGetter__"; "__defineSetter__"; "__lookupGetter__";
     "__lookupSetter__"].

(** The registry after a sequence of calls, from the empty one. *)
Definition registry_after (prototype : gset string) (calls : list call)
  : registry * loc :=
  foldl (perform prototype) (Registry ∅ [], 0%nat) calls.

(** Every registered category is under a name that the prototype does not
    have, was allocated before, and has a [name] property. *)
Definition registry_ok (prototype : gset string) (state : registry * loc)
  : Prop :=
  ∀ name category,
    categories state.1 !! name = Some category →
    (name ∉ prototype)
    ∧ (addr category < state.2)%nat
    ∧ is_Some (obj category !! "name").

(** ** More vocabulary *)

(** A selection state is [{}] or has all of its three properties. *)
Definition selection_ok (s : selection) : Prop :=
  s = Selection.empty
  ∨ (is_Some (Selection.uid s) ∧ is_Some (Selection.typing s)
     ∧ is_Some (Selection.focus s)).

(** The document holds every block once: [blockOrder] is a permutation of
    the keys of the block map. *)
Definition content_ordered (c : content) : Prop :=
  content_consistent c ∧ NoDup (obj (Content.blockOrder c)).

(** An event that brings no identifier twice: the nodes of a loaded
    document have distinct uids, an inserted block is not in the document,
    the target of an update, a replacement or a move is, and a removal
    names a key. *)
Definition admissible (c : content) (e : event) : Prop :=
  target_present c e
  ∧ match e with
    | LoadDocument _ nodes => NoDup (block_uid <$> nodes)
    | InsertBlock b _ => block_uid b ∉ dom (obj (Content.blocksByUid c))
    | _ => True
    end.

(** * Properties *)

(** ** References *)

(** An object literal is a reference that no earlier object has. *)
Lemma new_is_fresh {A B} (o : A) (r : ref B) (n : loc) :
  (addr r < n)%nat → ∀ r' n', new o n = Ok r' n' → ¬ same_ref r' r.
Proof.
  intros Hlt r' n' [= <- _]. unfold same_ref. simpl. lia.
Qed.

(** ** The cases of [test/state.js] *)

Example should_key_by_replaced_blocks_uid :
  order_after [LoadDocument VUndef [Block "bananas" ∅]] = Some [Some "bananas"]
  ∧ keys_after [LoadDocument VUndef [Block "bananas" ∅]] = Some {["bananas"]}.
Proof. split; reflexivity. Qed.

Example should_insert_block :
  order_after [LoadDocument VUndef [Block "chicken" ∅];
               InsertBlock (Block "ribs" ∅) None]
  = Some [Some "chicken"; Some "ribs"].
Proof. reflexivity. Qed.

Example should_insert_after_the_specified_block_uid :
  order_after [LoadDocument VUndef [Block "kumquat" ∅; Block "loquat" ∅];
               InsertBlock (Block "persimmon" ∅) (Some "kumquat")]
  = Some [Some "kumquat"; Some "persimmon"; Some "loquat"].
Proof. reflexivity. Qed.

Example should_move_the_block_up :
  order_after [LoadDocument VUndef [Block "chicken" ∅; Block "ribs" ∅];
               MoveBlockUp "ribs"]
  = Some [Some "ribs"; Some "chicken"].
Proof. reflexivity. Qed.

Example should_not_move_the_first_block_up :
  let original := Ref 7%nat [Some "chicken"; Some "ribs"] in
  blockOrder (Some original) (action_of (MoveBlockUp "chicken")) 8%nat
  = Ok original 8%nat.
Proof. reflexivity. Qed.

Example should_move_the_block_down :
  order_after [LoadDocument VUndef [Block "chicken" ∅; Block "ribs" ∅];
               MoveBlockDown "chicken"]
  = Some [Some "ribs"; Some "chicken"].
Proof. reflexivity. Qed.

Example should_not_move_the_last_block_down :
  let original := Ref 7%nat [Some "chicken"; Some "ribs"] in
  blockOrder (Some original) (action_of (MoveBlockDown "ribs")) 8%nat
  = Ok original 8%nat.
Proof. reflexivity. Qed.

Example should_remove_the_block :
  order_after [LoadDocument VUndef [Block "chicken" ∅; Block "ribs" ∅];
               RemoveBlock "chicken"]
  = Some [Some "ribs"]
  ∧ keys_after [LoadDocument VUndef [Block "chicken" ∅; Block "ribs" ∅];
                RemoveBlock "chicken"]
    = Some {["ribs"]}.
Proof. split; reflexivity. Qed.

Example should_return_with_block_uid_as_hovered :
  hoveredBlock VNull (action_of (HoverBlock "kumquat" true)) = VStr "kumquat".
Proof. reflexivity. Qed.

Example should_update_the_focus_and_merge_the_existing_state :
  let citation := Ref 1%nat {["editable" := VStr "citation"]} in
  selectedBlock (Some (Ref 3%nat (Selection.Make (Some "ribs") (Some true)
                                    (Some (Ref 2%nat ∅)))))
                (action_of (UpdateFocus "ribs" (Some citation))) 4%nat
  = Ok (Ref 4%nat (Selection.Make (Some "ribs") (Some true) (Some citation)))
       5%nat.
Proof. reflexivity. Qed.

Example should_set_the_typing_flag_and_merge_the_existing_state :
  let citation := Ref 1%nat {["editable" := VStr "citation"]} in
  selectedBlock (Some (Ref 3%nat (Selection.Make (Some "ribs") (Some false)
                                    (Some citation))))
                (action_of (StartTyping "ribs")) 4%nat
  = Ok (Ref 4%nat (Selection.Make (Some "ribs") (Some true) (Some citation)))
       5%nat.
Proof. reflexivity. Qed.

Example should_return_switched_mode :
  mode VUndef (Action.bare "@@INIT") = VStr "visual"
  ∧ mode VNull (action_of (SetMode "text")) = VStr "text".
Proof. split; reflexivity. Qed.

Example should_toggle_the_sidebar_open_flag :
  isSidebarOpened VUndef (Action.bare "@@INIT") = VBool false
  ∧ isSidebarOpened (VBool false) (action_of ToggleSidebar) = VBool true.
Proof. split; reflexivity. Qed.

(** ** Arrays: [indexOf] and [slice] *)

Section array_facts.
Context {A : Type} `{EqDecision A}.
Implicit Types (xs pre post : list A) (x y : A).

Lemma indexOf_from_absent xs x i : x ∉ xs → indexOf_from xs x i = -1.
Proof.
  revert i. induction xs as [|y ys IH]; intros i Hx; [done|].
  apply not_elem_of_cons in Hx as [Hne Hys].
  cbn [indexOf_from]. destruct (decide (x = y)); [done|]. by apply IH.
Qed.

Lemma indexOf_absent xs x : x ∉ xs → indexOf xs x = -1.
Proof. apply indexOf_from_absent. Qed.

(** The index found is the one of the first occurrence. *)
Lemma indexOf_from_first pre x post i :
  x ∉ pre → indexOf_from (pre ++ x :: post) x i = i + Z.of_nat (length pre).
Proof.
  revert i. induction pre as [|y ys IH]; intros i Hx;
    cbn [indexOf_from app length].
  - destruct (decide (x = x)); [lia|done].
  - apply not_elem_of_cons in Hx as [Hne Hys].
    destruct (decide (x = y)); [done|]. rewrite IH by done. lia.
Qed.

Lemma indexOf_first pre x post :
  x ∉ pre → indexOf (pre ++ x :: post) x = Z.of_nat (length pre).
Proof. intros Hx. unfold indexOf. by rewrite indexOf_from_first. Qed.

Lemma first_occurrence xs x :
  x ∈ xs → ∃ pre post, xs = pre ++ x :: post ∧ x ∉ pre.
Proof.
  induction xs as [|y ys IH]; intros Hx; [by apply elem_of_nil in Hx|].
  destruct (decide (x = y)) as [->|Hne].
  - exists [], ys. split; [done | apply not_elem_of_nil].
  - apply elem_of_cons in Hx as [?|Hx]; [done|].
    destruct (IH Hx) as (pre & post & -> & Hpre).
    exists (y :: pre), post. split; [done|].
    by apply not_elem_of_cons.
Qed.

Lemma relative_bounds len i : 0 ≤ len → 0 ≤ relative len i ≤ len.
Proof. unfold relative. destruct (Z.ltb_spec i 0); lia. Qed.

Lemma relative_inside len i : 0 ≤ i ≤ len → relative len i = i.
Proof. unfold relative. destruct (Z.ltb_spec i 0); lia. Qed.

Lemma slice_to xs i :
  0 ≤ i ≤ Z.of_nat (length xs) → slice xs 0 (Some i) = take (Z.to_nat i) xs.
Proof.
  intros Hi. unfold slice.
  rewrite !relative_inside by lia. simpl. by rewrite Z.sub_0_r.
Qed.

Lemma slice_from xs i :
  0 ≤ i ≤ Z.of_nat (length xs) → slice xs i None = drop (Z.to_nat i) xs.
Proof.
  intros Hi. unfold slice. rewrite relative_inside by lia.
  apply take_ge. rewrite length_drop. lia.
Qed.

(** Whatever the position, the two slices around it make up the array. *)
Lemma slice_split xs i : slice xs 0 (Some i) ++ slice xs i None = xs.
Proof.
  unfold slice.
  assert (0 ≤ relative (Z.of_nat (length xs)) i ≤ Z.of_nat (length xs)) as Hk
    by (apply relative_bounds; lia).
  set (k := relative (Z.of_nat (length xs)) i) in *.
  rewrite (relative_inside (Z.of_nat (length xs)) 0) by lia.
  rewrite Z.sub_0_r. change (Z.to_nat 0) with 0%nat. rewrite drop_0.
  rewrite (take_ge (drop (Z.to_nat k) xs)) by (rewrite length_drop; lia).
  apply take_drop.
Qed.

Lemma slice_to_app pre post :
  slice (pre ++ post) 0 (Some (Z.of_nat (length pre))) = pre.
Proof.
  rewrite slice_to by (rewrite length_app; lia).
  rewrite Nat2Z.id. by rewrite take_app_length.
Qed.

Lemma slice_from_app pre post :
  slice (pre ++ post) (Z.of_nat (length pre)) None = post.
Proof.
  rewrite slice_from by (rewrite length_app; lia).
  rewrite Nat2Z.id. by rewrite drop_app_length.
Qed.

Lemma without_spec xs x y : y ∈ without xs x ↔ y ∈ xs ∧ y ≠ x.
Proof. unfold without. rewrite list_elem_of_filter. tauto. Qed.
End array_facts.

Lemma at_index_app {A} (pre post : list (option A)) (x : option A) :
  at_index (pre ++ x :: post) (Z.of_nat (length pre)) = x.
Proof.
  unfold at_index. destruct (Z.ltb_spec (Z.of_nat (length pre)) 0); [lia|].
  rewrite Nat2Z.id. by rewrite list_lookup_middle.
Qed.

Lemma at_index_0 {A} (x : option A) (xs : list (option A)) :
  at_index (x :: xs) 0 = x.
Proof. done. Qed.

Lemma last_of_snoc {A} (xs : list (option A)) (x : option A) :
  last_of (xs ++ [x]) = x.
Proof.
  unfold last_of. rewrite length_app. simpl.
  replace (Z.of_nat (length xs + 1) - 1) with (Z.of_nat (length xs)) by lia.
  apply at_index_app.
Qed.

(** ** Running a reducer *)

Lemma slices_ok (c : content) (a : action) (n n1 n2 n3 : loc) p m o :
  post (Content.post c) a n = Ok p n1 →
  blocksByUid (Some (Content.blocksByUid c)) a n1 = Ok m n2 →
  blockOrder (Some (Content.blockOrder c)) a n2 = Ok o n3 →
  slices c a n = Ok (Content.Make p m o) n3.
Proof.
  intros Hp Hm Ho. unfold slices, bind. by rewrite Hp, Hm, Ho.
Qed.

(** [post] dereferences nothing: it always returns. *)
Lemma post_returns (state : val) (a : action) (n : loc) :
  ∃ p n', post state a n = Ok p n'.
Proof.
  unfold post, bind, ret, new.
  destruct (decide (state = VUndef)); repeat case_decide; eauto.
Qed.

(** ** Moving a block *)

Section moves.
Variables (state : ref order) (a : action) (n : loc).

Lemma move_up_first :
  Action.type a = "MOVE_BLOCK_UP" →
  Action.uid a = at_index (obj state) 0 →
  blockOrder (Some state) a n = Ok state n.
Proof.
  intros Hty Hfirst. unfold blockOrder. rewrite Hty.
  cbn [default_param bind ret]. repeat (case_decide; try done).
Qed.

Lemma move_down_last :
  Action.type a = "MOVE_BLOCK_DOWN" →
  Action.uid a = last_of (obj state) →
  blockOrder (Some state) a n = Ok state n.
Proof.
  intros Hty Hlast. unfold blockOrder. rewrite Hty.
  cbn [default_param bind ret]. repeat (case_decide; try done).
Qed.

Lemma move_up_swaps :
  Action.type a = "MOVE_BLOCK_UP" →
  Action.uid a ∈ obj state →
  Action.uid a ≠ at_index (obj state) 0 →
  ∃ pre y post,
    obj state = pre ++ y :: Action.uid a :: post
    ∧ blockOrder (Some state) a n
      = Ok (Ref n (pre ++ Action.uid a :: y :: post)) (S n).
Proof.
  intros Hty Hin Hfirst.
  destruct (first_occurrence _ _ Hin) as (front & post & Hxs & Hfront).
  destruct front as [|y pre _] using rev_ind.
  { simpl in Hxs. rewrite Hxs in Hfirst. by rewrite at_index_0 in Hfirst. }
  assert (obj state = pre ++ y :: Action.uid a :: post) as Hxs1
    by (by rewrite Hxs, <- (assoc_L (++))).
  assert (obj state = (pre ++ [y; Action.uid a]) ++ post) as Hxs2
    by (by rewrite Hxs1, <- (assoc_L (++))).
  exists pre, y, post. split; [done|].
  unfold blockOrder. rewrite Hty. cbn [default_param bind ret].
  repeat (case_decide; try done). unfold new. do 2 f_equal.
  replace (indexOf (obj state) (Action.uid a))
    with (Z.of_nat (length pre) + 1).
  2:{ rewrite Hxs, indexOf_first by done. rewrite length_app. simpl. lia. }
  replace (Z.of_nat (length pre) + 1 - 1) with (Z.of_nat (length pre)) by lia.
  replace (Z.of_nat (length pre) + 1 + 1)
    with (Z.of_nat (length (pre ++ [y; Action.uid a])))
    by (rewrite length_app; simpl; lia).
  rewrite Hxs2 at 3. rewrite slice_from_app.
  rewrite Hxs1. by rewrite slice_to_app, at_index_app.
Qed.

Lemma move_down_swaps :
  Action.type a = "MOVE_BLOCK_DOWN" →
  Action.uid a ∈ obj state →
  Action.uid a ≠ last_of (obj state) →
  ∃ pre y post,
    obj state = pre ++ Action.uid a :: y :: post
    ∧ blockOrder (Some state) a n
      = Ok (Ref n (pre ++ y :: Action.uid a :: post)) (S n).
Proof.
  intros Hty Hin Hlast.
  destruct (first_occurrence _ _ Hin) as (pre & back & Hxs & Hpre).
  destruct back as [|y post].
  { rewrite Hxs in Hlast. by rewrite last_of_snoc in Hlast. }
  assert (obj state = (pre ++ [Action.uid a]) ++ y :: post) as Hxs1
    by (by rewrite Hxs, <- (assoc_L (++))).
  assert (obj state = (pre ++ [Action.uid a; y]) ++ post) as Hxs2
    by (by rewrite Hxs, <- (assoc_L (++))).
  exists pre, y, post. split; [done|].
  unfold blockOrder. rewrite Hty. cbn [default_param bind ret].
  repeat (case_decide; try done). unfold new. do 2 f_equal.
  replace (indexOf (obj state) (Action.uid a)) with (Z.of_nat (length pre))
    by (by rewrite Hxs, indexOf_first).
  replace (Z.of_nat (length pre) + 1)
    with (Z.of_nat (length (pre ++ [Action.uid a])))
    by (rewrite length_app; simpl; lia).
  replace (Z.of_nat (length pre) + 2)
    with (Z.of_nat (length (pre ++ [Action.uid a; y])))
    by (rewrite length_app; simpl; lia).
  rewrite Hxs2 at 3. rewrite slice_from_app.
  rewrite Hxs1 at 2. rewrite at_index_app.
  rewrite Hxs. by rewrite slice_to_app.
Qed.
End moves.

Lemma adjacent_swap_length {A} (xs ys : list A) :
  adjacent_swap xs ys → length xs = length ys.
Proof.
  intros (x & y & pre & post & -> & ->). by rewrite !length_app.
Qed.

(** A kind that is in none of the [case]s reaches the final [return state]. *)
Ltac unhandled Hty :=
  repeat match goal with
    | |- context [decide ?P] =>
        let Hk := fresh "Hk" in
        destruct (decide P) as [Hk|_];
        [exfalso; apply Hty; apply list_elem_of_In; simpl in *;
         intuition congruence|]
    end.

Lemma blocksByUid_other (state : ref blocks) (a : action) (n : loc) :
  Action.type a ∉ blocksByUid_kinds →
  blocksByUid (Some state) a n = Ok state n.
Proof.
  intros Hty. unfold blocksByUid. cbn [default_param bind ret].
  unhandled Hty. done.
Qed.

(** C5, as stated, fails: moving up a block that is not in [blockOrder]
    is not an exchange of two neighbours, it adds the identifier and
    [undefined] at the front. *)
Lemma move_absent_block_is_no_swap :
  blockOrder (Some (Ref 0%nat [Some "a"; Some "b"]))
             (action_of (MoveBlockUp "z")) 1%nat
  = Ok (Ref 1%nat [Some "z"; None; Some "a"; Some "b"]) 2%nat
  ∧ ¬ adjacent_swap [Some "a"; Some "b"] [Some "z"; None; Some "a"; Some "b"].
Proof.
  split; [reflexivity|].
  intros Hswap. by apply adjacent_swap_length in Hswap.
Qed.

(** The entry that a move exchanges with its neighbour is the first
    occurrence of the identifier. *)
Lemma move_up_first_occurrence (state : ref order) (a : action) (n : loc) :
  Action.type a = "MOVE_BLOCK_UP" →
  Action.uid a ∈ obj state →
  Action.uid a ≠ at_index (obj state) 0 →
  ∃ pre y post,
    obj state = pre ++ y :: Action.uid a :: post
    ∧ (Action.uid a ∉ pre)
    ∧ Action.uid a ≠ y
    ∧ blockOrder (Some state) a n
      = Ok (Ref n (pre ++ Action.uid a :: y :: post)) (S n).
Proof.
  intros Hty Hin Hfirst.
  destruct (first_occurrence _ _ Hin) as (front & post & Hxs & Hfront).
  destruct front as [|y pre _] using rev_ind.
  { simpl in Hxs. rewrite Hxs in Hfirst. by rewrite at_index_0 in Hfirst. }
  assert (obj state = pre ++ y :: Action.uid a :: post) as Hxs1
    by (by rewrite Hxs, <- (assoc_L (++))).
  assert (obj state = (pre ++ [y; Action.uid a]) ++ post) as Hxs2
    by (by rewrite Hxs1, <- (assoc_L (++))).
  exists pre, y, post. split; [done|]. split.
  { intros Hpre. apply Hfront, elem_of_app. by left. }
  split.
  { intros <-. apply Hfront, elem_of_app. right. by left. }
  unfold blockOrder. rewrite Hty. cbn [default_param bind ret].
  repeat (case_decide; try done). unfold new. do 2 f_equal.
  replace (indexOf (obj state) (Action.uid a))
    with (Z.of_nat (length pre) + 1).
  2:{ rewrite Hxs, indexOf_first by done. rewrite length_app. simpl. lia. }
  replace (Z.of_nat (length pre) + 1 - 1) with (Z.of_nat (length pre)) by lia.
  replace (Z.of_nat (length pre) + 1 + 1)
    with (Z.of_nat (length (pre ++ [y; Action.uid a])))
    by (rewrite length_app; simpl; lia).
  rewrite Hxs2 at 3. rewrite slice_from_app.
  rewrite Hxs1. by rewrite slice_to_app, at_index_app.
Qed.

Lemma move_down_first_occurrence (state : ref order) (a : action) (n : loc) :
  Action.type a = "MOVE_BLOCK_DOWN" →
  Action.uid a ∈ obj state →
  Action.uid a ≠ last_of (obj state) →
  ∃ pre y post,
    obj state = pre ++ Action.uid a :: y :: post
    ∧ (Action.uid a ∉ pre)
    ∧ blockOrder (Some state) a n
      = Ok (Ref n (pre ++ y :: Action.uid a :: post)) (S n).
Proof.
  intros Hty Hin Hlast.
  destruct (first_occurrence _ _ Hin) as (pre & back & Hxs & Hpre).
  destruct back as [|y post].
  { rewrite Hxs in Hlast. by rewrite last_of_snoc in Hlast. }
  assert (obj state = (pre ++ [Action.uid a]) ++ y :: post) as Hxs1
    by (by rewrite Hxs, <- (assoc_L (++))).
  assert (obj state = (pre ++ [Action.uid a; y]) ++ post) as Hxs2
    by (by rewrite Hxs, <- (assoc_L (++))).
  exists pre, y, post. split; [done|]. split; [done|].
  unfold blockOrder. rewrite Hty. cbn [default_param bind ret].
  repeat (case_decide; try done). unfold new. do 2 f_equal.
  replace (indexOf (obj state) (Action.uid a)) with (Z.of_nat (length pre))
    by (by rewrite Hxs, indexOf_first).
  replace (Z.of_nat (length pre) + 1)
    with (Z.of_nat (length (pre ++ [Action.uid a])))
    by (rewrite length_app; simpl; lia).
  replace (Z.of_nat (length pre) + 2)
    with (Z.of_nat (length (pre ++ [Action.uid a; y])))
    by (rewrite length_app; simpl; lia).
  rewrite Hxs2 at 3. rewrite slice_from_app.
  rewrite Hxs1 at 2. rewrite at_index_app.
  rewrite Hxs. by rewrite slice_to_app.
Qed.

(** C5 (amended): on a non-empty [blockOrder], moving the first identifier
    up, or the last identifier down, returns the input array itself.
    Otherwise, when the identifier is in [blockOrder], the move returns a
    new array in which the first occurrence of the identifier has changed
    places with its neighbour, the entry before it for a move up and the
    entry after it for a move down, and every other entry is where it
    was.  A move returns the block map itself. *)
Theorem move_block (state : ref order) (map : ref blocks) (a : action)
    (n : loc) :
  (Action.type a = "MOVE_BLOCK_UP" →
     (∀ rest, obj state = Action.uid a :: rest →
        blockOrder (Some state) a n = Ok state n)
     ∧ (∀ x rest, obj state = x :: rest → Action.uid a ≠ x →
        Action.uid a ∈ obj state →
        ∃ pre y post,
          obj state = pre ++ y :: Action.uid a :: post
          ∧ (Action.uid a ∉ pre) ∧ Action.uid a ≠ y
          ∧ blockOrder (Some state) a n
            = Ok (Ref n (pre ++ Action.uid a :: y :: post)) (S n)
          ∧ exchanged y (Action.uid a) (obj state)
              (pre ++ Action.uid a :: y :: post)))
  ∧ (Action.type a = "MOVE_BLOCK_DOWN" →
     (∀ front, obj state = front ++ [Action.uid a] →
        blockOrder (Some state) a n = Ok state n)
     ∧ (∀ front x, obj state = front ++ [x] → Action.uid a ≠ x →
        Action.uid a ∈ obj state →
        ∃ pre y post,
          obj state = pre ++ Action.uid a :: y :: post
          ∧ (Action.uid a ∉ pre)
          ∧ blockOrder (Some state) a n
            = Ok (Ref n (pre ++ y :: Action.uid a :: post)) (S n)
          ∧ exchanged (Action.uid a) y (obj state)
              (pre ++ y :: Action.uid a :: post)))
  ∧ (Action.type a = "MOVE_BLOCK_UP" ∨ Action.type a = "MOVE_BLOCK_DOWN" →
     blocksByUid (Some map) a n = Ok map n).
Proof.
  split; [|split].
  - intros Hty. split.
    + intros rest Hxs. apply move_up_first; [done|]. by rewrite Hxs.
    + intros x rest Hxs Hne Hin.
      destruct (move_up_first_occurrence state a n Hty Hin)
        as (pre & y & post & Hpre & Hfirst & Hy & Hrun).
      { by rewrite Hxs, at_index_0. }
      exists pre, y, post. repeat split; try done.
      by exists pre, post.
  - intros Hty. split.
    + intros front Hxs. apply move_down_last; [done|].
      by rewrite Hxs, last_of_snoc.
    + intros front x Hxs Hne Hin.
      destruct (move_down_first_occurrence state a n Hty Hin)
        as (pre & y & post & Hpre & Hfirst & Hrun).
      { by rewrite Hxs, last_of_snoc. }
      exists pre, y, post. repeat split; try done.
      by exists pre, post.
  - intros Hty. apply blocksByUid_other.
    intros Hin. apply list_elem_of_In in Hin. simpl in Hin.
    destruct Hty as [Hty | Hty]; rewrite Hty in Hin; intuition discriminate.
Qed.

Lemma move_block_witness :
  blockOrder (Some (Ref 0%nat [Some "a"; Some "b"; Some "c"; Some "b"]))
             (action_of (MoveBlockUp "a")) 1%nat
  = Ok (Ref 0%nat [Some "a"; Some "b"; Some "c"; Some "b"]) 1%nat
  ∧ (∃ pre y post,
       [Some "a"; Some "b"; Some "c"; Some "b"] = pre ++ y :: Some "b" :: post
       ∧ (Some "b" ∉ pre)
       ∧ blockOrder (Some (Ref 0%nat [Some "a"; Some "b"; Some "c"; Some "b"]))
                    (action_of (MoveBlockUp "b")) 1%nat
         = Ok (Ref 1%nat (pre ++ Some "b" :: y :: post)) 2%nat)
  ∧ blocksByUid (Some (Ref 5%nat ∅)) (action_of (MoveBlockUp "b")) 1%nat
    = Ok (Ref 5%nat ∅) 1%nat.
Proof.
  destruct (move_block (Ref 0%nat [Some "a"; Some "b"; Some "c"; Some "b"])
              (Ref 5%nat ∅) (action_of (MoveBlockUp "a")) 1%nat)
    as ([Hfirst _] & _ & _); [reflexivity|].
  destruct (move_block (Ref 0%nat [Some "a"; Some "b"; Some "c"; Some "b"])
              (Ref 5%nat ∅) (action_of (MoveBlockUp "b")) 1%nat)
    as ([_ Hswap] & _ & Hmap); [reflexivity|].
  split; [|split].
  - by apply (Hfirst [Some "b"; Some "c"; Some "b"]).
  - destruct (Hswap (Some "a") [Some "b"; Some "c"; Some "b"])
      as (pre & y & post & Hxs & Hpre & _ & Hrun & _).
    + reflexivity.
    + discriminate.
    + simpl. apply list_elem_of_In. simpl. auto.
    + by exists pre, y, post.
  - apply Hmap. by left.
Defined.

(** Of two occurrences, the first one moves. *)
Example move_first_of_two_occurrences :
  blockOrder (Some (Ref 0%nat [Some "a"; Some "b"; Some "c"; Some "b"]))
             (action_of (MoveBlockUp "b")) 1%nat
  = Ok (Ref 1%nat [Some "b"; Some "a"; Some "c"; Some "b"]) 2%nat.
Proof. reflexivity. Qed.

(** ** Inserting a block *)

(** C2: the code inserts at position 0 when the anchor is not in
    [blockOrder]: [indexOf] gives [-1], and the position is [-1 + 1]. *)
Theorem insert_after_absent_anchor (state : ref order) (a : action)
    (b : block) (anchor : string) (n : loc) :
  Action.type a = "INSERT_BLOCK" →
  Action.block a = Some b →
  Action.after a = Some anchor →
  anchor ≠ "" →
  Some anchor ∉ obj state →
  blockOrder (Some state) a n
  = Ok (Ref n (Some (block_uid b) :: obj state)) (S n).
Proof.
  intros Hty Hb Hafter Hne Habsent.
  unfold blockOrder. rewrite Hty, Hb, Hafter.
  cbn [default_param bind ret]. repeat (case_decide; try done).
  unfold truthy_str, of_str, truthy. rewrite decide_False by done.
  rewrite indexOf_absent by done. change (-1 + 1) with 0.
  rewrite slice_to, slice_from by lia. reflexivity.
Qed.

Lemma insert_after_absent_anchor_witness :
  blockOrder (Some (Ref 0%nat [Some "a"; Some "b"]))
             (action_of (InsertBlock (Block "c" ∅) (Some "zzz"))) 1%nat
  = Ok (Ref 1%nat [Some "c"; Some "a"; Some "b"]) 2%nat.
Proof.
  apply (insert_after_absent_anchor (Ref 0%nat [Some "a"; Some "b"])
           (action_of (InsertBlock (Block "c" ∅) (Some "zzz")))
           (Block "c" ∅) "zzz" 1%nat); try reflexivity.
  - discriminate.
  - simpl. rewrite list_elem_of_In. simpl. intros [?|[?|[]]]; discriminate.
Defined.

Lemma blockOrder_other (state : ref order) (a : action) (n : loc) :
  Action.type a ∉ blockOrder_kinds →
  blockOrder (Some state) a n = Ok state n.
Proof.
  intros Hty. unfold blockOrder. cbn [default_param bind ret].
  unhandled Hty. done.
Qed.

(** Wherever the block goes, the others keep their places. *)
Lemma insert_block_order (state : ref order) (a : action) (b : block)
    (n : loc) :
  Action.type a = "INSERT_BLOCK" →
  Action.block a = Some b →
  ∃ pre post,
    obj state = pre ++ post
    ∧ blockOrder (Some state) a n
      = Ok (Ref n (pre ++ Some (block_uid b) :: post)) (S n).
Proof.
  intros Hty Hb. unfold blockOrder. rewrite Hty, Hb.
  cbn [default_param bind ret]. repeat (case_decide; try done).
  set (position := if truthy_str (Action.after a) then _ else _).
  exists (slice (obj state) 0 (Some position)), (slice (obj state) position None).
  split; [by rewrite slice_split | done].
Qed.

Lemma insert_block_map (state : ref blocks) (a : action) (b : block)
    (n : loc) :
  Action.type a = "INSERT_BLOCK" →
  Action.block a = Some b →
  blocksByUid (Some state) a n
  = Ok (Ref n (<[block_uid b := Some (block_obj b)]> (obj state))) (S n).
Proof.
  intros Hty Hb. unfold blocksByUid. rewrite Hty, Hb. reflexivity.
Qed.

Lemma remove_block_order (state : ref order) (a : action) (n : loc) :
  Action.type a = "REMOVE_BLOCK" →
  blockOrder (Some state) a n
  = Ok (Ref n (without (obj state) (Action.uid a))) (S n).
Proof. intros Hty. unfold blockOrder. rewrite Hty. reflexivity. Qed.

Lemma remove_block_map (state : ref blocks) (a : action) (n : loc) :
  Action.type a = "REMOVE_BLOCK" →
  blocksByUid (Some state) a n
  = Ok (Ref n (omit (obj state) (to_key (Action.uid a)))) (S n).
Proof. intros Hty. unfold blocksByUid. rewrite Hty. reflexivity. Qed.

(** ** Occurrences in an array *)

Section occurrences.
Context {A : Type} `{EqDecision A}.
Implicit Types (xs pre post : list A) (x : A).

Lemma occurrences_app x pre post :
  occurrences x (pre ++ post) = (occurrences x pre + occurrences x post)%nat.
Proof. unfold occurrences. by rewrite filter_app, length_app. Qed.

Lemma occurrences_cons_eq x xs : occurrences x (x :: xs) = S (occurrences x xs).
Proof. unfold occurrences. by rewrite filter_cons_True. Qed.

Lemma occurrences_absent x xs : x ∉ xs → occurrences x xs = 0%nat.
Proof.
  intros Hx. unfold occurrences.
  induction xs as [|y ys IH]; [done|].
  apply not_elem_of_cons in Hx as [Hne Hys].
  rewrite filter_cons_False by done. by apply IH.
Qed.

Lemma occurrences_present x xs : x ∈ xs → (1 ≤ occurrences x xs)%nat.
Proof.
  intros (pre & post & -> & _)%first_occurrence.
  rewrite occurrences_app, occurrences_cons_eq. lia.
Qed.

Lemma occurrences_NoDup x xs : NoDup xs → (occurrences x xs ≤ 1)%nat.
Proof.
  induction 1 as [|y ys Hy _ IH]; [unfold occurrences; simpl; lia|].
  destruct (decide (y = x)) as [->|Hne].
  - rewrite occurrences_cons_eq, occurrences_absent by done. lia.
  - unfold occurrences in *. by rewrite filter_cons_False.
Qed.

Lemma without_absent x xs : x ∉ xs → without xs x = xs.
Proof.
  unfold without. induction xs as [|y ys IH]; intros Hx; [done|].
  apply not_elem_of_cons in Hx as [Hne Hys].
  rewrite filter_cons_True by done. by rewrite IH.
Qed.

Lemma without_once x pre post :
  x ∉ pre → x ∉ post → without (pre ++ x :: post) x = pre ++ post.
Proof.
  intros Hpre Hpost.
  rewrite <- (without_absent x pre), <- (without_absent x post) at 2 by done.
  unfold without. rewrite filter_app, filter_cons_False by naive_solver.
  done.
Qed.

Lemma without_length x xs :
  (length (without xs x) + occurrences x xs = length xs)%nat.
Proof.
  unfold without, occurrences. induction xs as [|y ys IH]; [done|].
  destruct (decide (y = x)) as [->|Hne].
  - rewrite filter_cons_False, filter_cons_True by naive_solver. simpl. lia.
  - rewrite filter_cons_True, filter_cons_False by done. simpl. lia.
Qed.
End occurrences.

Lemma one_removed_length {A} (x : A) (xs ys : list A) :
  one_removed x xs ys → length xs = S (length ys).
Proof.
  intros (pre & post & -> & ->). rewrite !length_app. simpl. lia.
Qed.

(** ** Removing a block *)

(** C6, as stated, fails: [without] takes out every occurrence.  After
    the block [a] has been inserted twice, removing it takes two entries
    out of [blockOrder]. *)
Lemma remove_takes_every_occurrence :
  order_after [InsertBlock (Block "a" ∅) None; InsertBlock (Block "b" ∅) None;
               InsertBlock (Block "a" ∅) None]
  = Some [Some "a"; Some "b"; Some "a"]
  ∧ order_after [InsertBlock (Block "a" ∅) None; InsertBlock (Block "b" ∅) None;
                 InsertBlock (Block "a" ∅) None; RemoveBlock "a"]
    = Some [Some "b"]
  ∧ ¬ one_removed (Some "a") [Some "a"; Some "b"; Some "a"] [Some "b"].
Proof.
  split; [reflexivity|]. split; [reflexivity|].
  intros Hone. by apply one_removed_length in Hone.
Qed.

(** C6 (amended): a remove-block event whose identifier lodash's [omit]
    takes as a key (a key of the block map, or a string without dot and
    bracket) deletes the identifier's entry from the block map, leaving the
    other entries, and removes every occurrence of the identifier from
    [blockOrder], the other entries keeping their order: exactly one
    occurrence when the identifier occurs once. *)
Theorem remove_block (c : content) (a : action) (uid : string) (n : loc) :
  Action.type a = "REMOVE_BLOCK" →
  Action.uid a = Some uid →
  plain_key (obj (Content.blocksByUid c)) uid = true →
  ∃ c' n',
    slices c a n = Ok c' n'
    ∧ obj (Content.blocksByUid c') = delete uid (obj (Content.blocksByUid c))
    ∧ (Some uid ∉ obj (Content.blockOrder c'))
    ∧ (∀ x, x ≠ Some uid →
         occurrences x (obj (Content.blockOrder c'))
         = occurrences x (obj (Content.blockOrder c)))
    ∧ sublist (obj (Content.blockOrder c')) (obj (Content.blockOrder c))
    ∧ (∀ pre post,
         obj (Content.blockOrder c) = pre ++ Some uid :: post →
         Some uid ∉ pre → Some uid ∉ post →
         obj (Content.blockOrder c') = pre ++ post).
Proof.
  intros Hty Huid Hplain.
  destruct (post_returns (Content.post c) a n) as (p & n1 & Hp).
  eexists _, _. split.
  { eapply slices_ok; [exact Hp|by apply remove_block_map|
                       by apply remove_block_order]. }
  rewrite Huid. simpl. repeat split.
  - rewrite without_spec. tauto.
  - intros x Hx. unfold occurrences, without.
    rewrite list_filter_filter. f_equal.
    apply list_filter_iff. intros y. intuition congruence.
  - apply sublist_filter.
  - intros pre post -> Hpre Hpost. by apply without_once.
Qed.

Lemma remove_block_witness :
  ∃ c' n',
    slices (Content.Make VNull (Ref 0%nat {["a" := Some ∅; "b" := Some ∅]})
              (Ref 1%nat [Some "a"; Some "b"]))
           (action_of (RemoveBlock "a")) 2%nat = Ok c' n'
    ∧ obj (Content.blockOrder c') = [] ++ [Some "b"].
Proof.
  destruct (remove_block
              (Content.Make VNull (Ref 0%nat {["a" := Some ∅; "b" := Some ∅]})
                 (Ref 1%nat [Some "a"; Some "b"]))
              (action_of (RemoveBlock "a")) "a" 2%nat eq_refl eq_refl)
    as (c' & n' & Hrun & _ & _ & _ & _ & Honce); [reflexivity|].
  exists c', n'. split; [exact Hrun|].
  apply Honce; [reflexivity|apply not_elem_of_nil|].
  rewrite list_elem_of_In. simpl. intros [?|[]]; discriminate.
Defined.

(** ** Inserting a block that is already there *)

(** C10: an insert-block event whose block identifier is already a key of
    the block map overwrites the entry, adds no key, and still adds an
    occurrence of the identifier to [blockOrder]: an identifier that was in
    [blockOrder] is there twice afterwards. *)
Theorem insert_existing_block (c : content) (a : action) (b : block)
    (n : loc) :
  Action.type a = "INSERT_BLOCK" →
  Action.block a = Some b →
  block_uid b ∈ dom (obj (Content.blocksByUid c)) →
  ∃ c' n',
    slices c a n = Ok c' n'
    ∧ obj (Content.blocksByUid c') !! block_uid b = Some (Some (block_obj b))
    ∧ dom (obj (Content.blocksByUid c')) = dom (obj (Content.blocksByUid c))
    ∧ occurrences (Some (block_uid b)) (obj (Content.blockOrder c'))
      = S (occurrences (Some (block_uid b)) (obj (Content.blockOrder c)))
    ∧ (Some (block_uid b) ∈ obj (Content.blockOrder c) →
       ¬ NoDup (obj (Content.blockOrder c'))).
Proof.
  intros Hty Hb Hkey.
  destruct (post_returns (Content.post c) a n) as (p & n1 & Hp).
  destruct (insert_block_order (Content.blockOrder c) a b (S n1) Hty Hb)
    as (pre & post & Hxs & Ho).
  eexists _, _. split.
  { eapply slices_ok; [exact Hp|by apply insert_block_map|exact Ho]. }
  simpl. rewrite Hxs.
  assert (occurrences (Some (block_uid b)) (pre ++ Some (block_uid b) :: post)
          = S (occurrences (Some (block_uid b)) (pre ++ post))) as Hocc.
  { rewrite !occurrences_app, occurrences_cons_eq. lia. }
  repeat split.
  - apply lookup_insert_eq.
  - rewrite dom_insert_L. apply set_eq. intros k.
    rewrite elem_of_union, elem_of_singleton. intuition congruence.
  - exact Hocc.
  - intros Hin%occurrences_present Hnodup.
    apply (occurrences_NoDup (Some (block_uid b))) in Hnodup. lia.
Qed.

Lemma insert_existing_block_witness :
  ∃ c' n',
    slices (Content.Make VNull (Ref 0%nat {["a" := Some ∅]}) (Ref 1%nat [Some "a"]))
           (action_of (InsertBlock (Block "a" ∅) None)) 2%nat = Ok c' n'
    ∧ occurrences (Some "a") (obj (Content.blockOrder c')) = 2%nat.
Proof.
  destruct (insert_existing_block
              (Content.Make VNull (Ref 0%nat {["a" := Some ∅]})
                 (Ref 1%nat [Some "a"]))
              (action_of (InsertBlock (Block "a" ∅) None)) (Block "a" ∅) 2%nat
              eq_refl eq_refl)
    as (c' & n' & Hrun & _ & _ & Hocc & _).
  { simpl. rewrite dom_singleton_L. by apply elem_of_singleton. }
  exists c', n'. split; [exact Hrun | exact Hocc].
Defined.

(** ** The block map and the block order hold the same identifiers *)

Lemma consistent_iff (m : blocks) (xs : order) :
  consistent m xs ↔ ∀ x, x ∈ xs ↔ ∃ k, x = Some k ∧ k ∈ dom m.
Proof.
  unfold consistent. rewrite set_eq.
  apply forall_proper. intros x.
  by rewrite elem_of_list_to_set, elem_of_map.
Qed.

Lemma keyBy_dom_from (nodes : list block) (m : blocks) :
  dom (foldl (λ m b, <[block_uid b := Some (block_obj b)]> m) m nodes)
  = dom m ∪ list_to_set (block_uid <$> nodes).
Proof.
  revert m. induction nodes as [|b nodes IH]; intros m; simpl.
  - by rewrite (right_id_L ∅ (∪)).
  - rewrite IH, dom_insert_L.
    by rewrite (comm_L (∪) {[block_uid b]}), (assoc_L (∪)).
Qed.

(** The keys of [keyBy( nodes, 'uid' )] are the uids of the nodes. *)
Lemma keyBy_dom (nodes : list block) (k : string) :
  k ∈ dom (keyBy nodes) ↔ ∃ b, b ∈ nodes ∧ block_uid b = k.
Proof.
  unfold keyBy. rewrite keyBy_dom_from, dom_empty_L, (left_id_L ∅ (∪)).
  rewrite elem_of_list_to_set, list_elem_of_fmap.
  split; intros (b & ? & ?); eauto.
Qed.

Lemma consistent_load (nodes : list block) :
  consistent (keyBy nodes) ((λ b, Some (block_uid b)) <$> nodes).
Proof.
  apply consistent_iff. intros x. rewrite list_elem_of_fmap. split.
  - intros (b & -> & Hb). exists (block_uid b). split; [done|].
    apply keyBy_dom. eauto.
  - intros (k & -> & (b & Hb & <-)%keyBy_dom). eauto.
Qed.

(** Writing at a key that is already there adds no key. *)
Lemma consistent_overwrite (m : blocks) (xs : order) (k : string)
    (v : option object) :
  k ∈ dom m → consistent m xs → consistent (<[k := v]> m) xs.
Proof.
  intros Hk Hc. unfold consistent in *. rewrite Hc, dom_insert_L.
  f_equal. apply set_eq. intros j.
  rewrite elem_of_union, elem_of_singleton. intuition congruence.
Qed.

Lemma consistent_insert (m : blocks) (pre post : order) (k : string)
    (v : option object) :
  consistent m (pre ++ post) →
  consistent (<[k := v]> m) (pre ++ Some k :: post).
Proof.
  rewrite !consistent_iff. intros Hc x.
  assert (∀ j, j ∈ dom m → j ∈ dom (<[k := v]> m)) as Hkeep.
  { intros j Hj. rewrite dom_insert_L. by apply elem_of_union_r. }
  assert (k ∈ dom (<[k := v]> m)) as Hnew.
  { rewrite dom_insert_L. apply elem_of_union_l. by apply elem_of_singleton. }
  split.
  - intros Hx. apply elem_of_app in Hx as [Hx | Hx];
      [|apply elem_of_cons in Hx as [-> | Hx]]; [| by eauto |].
    + destruct (proj1 (Hc x)) as (j & -> & Hj); [apply elem_of_app; auto|].
      eauto.
    + destruct (proj1 (Hc x)) as (j & -> & Hj); [apply elem_of_app; auto|].
      eauto.
  - intros (j & -> & Hj). rewrite dom_insert_L in Hj.
    apply elem_of_app.
    apply elem_of_union in Hj as [->%elem_of_singleton | Hj].
    + right. apply elem_of_cons. by left.
    + assert (Some j ∈ pre ++ post) as Hin by (apply Hc; eauto).
      apply elem_of_app in Hin as [Hin | Hin]; [by left|].
      right. apply elem_of_cons. by right.
Qed.

Lemma consistent_remove (m : blocks) (xs : order) (k : string) :
  consistent m xs → consistent (delete k m) (without xs (Some k)).
Proof.
  rewrite !consistent_iff. intros Hc x. rewrite without_spec, Hc. split.
  - intros [(j & -> & Hj) Hne]. exists j. split; [done|].
    rewrite dom_delete_L. apply elem_of_difference. split; [done|].
    rewrite elem_of_singleton. congruence.
  - intros (j & -> & Hj). rewrite dom_delete_L in Hj.
    apply elem_of_difference in Hj as [Hj Hne].
    rewrite elem_of_singleton in Hne. split; [eauto | congruence].
Qed.

Lemma consistent_exchanged (m : blocks) (xs ys : order) x y :
  exchanged x y xs ys → consistent m xs → consistent m ys.
Proof.
  intros (pre & post & -> & ->). unfold consistent. intros <-.
  apply list_to_set_perm_L, Permutation_app_head, perm_swap.
Qed.

Lemma consistent_move (m : blocks) (state : ref order) (a : action) (n : loc) :
  Action.type a = "MOVE_BLOCK_UP" ∨ Action.type a = "MOVE_BLOCK_DOWN" →
  Action.uid a ∈ obj state →
  consistent m (obj state) →
  ∃ o' n', blockOrder (Some state) a n = Ok o' n' ∧ consistent m (obj o').
Proof.
  intros [Hty | Hty] Hin Hc.
  - destruct (decide (Action.uid a = at_index (obj state) 0)) as [Hfirst | Hfirst].
    + exists state, n. split; [by apply move_up_first | done].
    + destruct (move_up_swaps state a n Hty Hin Hfirst)
        as (pre & y & post & Hxs & Hrun).
      eexists _, _. split; [exact Hrun|]. simpl.
      apply (consistent_exchanged m (obj state) _ y (Action.uid a)); [|done].
      by exists pre, post.
  - destruct (decide (Action.uid a = last_of (obj state))) as [Hlast | Hlast].
    + exists state, n. split; [by apply move_down_last | done].
    + destruct (move_down_swaps state a n Hty Hin Hlast)
        as (pre & y & post & Hxs & Hrun).
      eexists _, _. split; [exact Hrun|]. simpl.
      apply (consistent_exchanged m (obj state) _ (Action.uid a) y); [|done].
      by exists pre, post.
Qed.

(** The kind of a concrete action is not among the given ones. *)
Ltac not_handled :=
  let H := fresh in
  intros H; apply list_elem_of_In in H; simpl in H; intuition discriminate.

Lemma load_map (state : ref blocks) (a : action) (n : loc) :
  Action.type a = "EDIT_POST" →
  blocksByUid (Some state) a n
  = Ok (Ref n (keyBy (default [] (Action.blockNodes a)))) (S n).
Proof. intros Hty. unfold blocksByUid. rewrite Hty. reflexivity. Qed.

Lemma load_order (state : ref order) (a : action) (nodes : list block)
    (n : loc) :
  Action.type a = "EDIT_POST" →
  Action.blockNodes a = Some nodes →
  blockOrder (Some state) a n
  = Ok (Ref n ((λ b, Some (block_uid b)) <$> nodes)) (S n).
Proof. intros Hty Hnodes. unfold blockOrder. rewrite Hty, Hnodes. reflexivity. Qed.

Lemma update_map (state : ref blocks) (a : action) (n : loc) :
  Action.type a = "UPDATE_BLOCK" →
  blocksByUid (Some state) a n
  = Ok (Ref n (<[to_key (Action.uid a) :=
                   Some (default ∅ (Action.updates a)
                         ∪ spread_entry (obj state) (to_key (Action.uid a)))]>
                 (obj state))) (S n).
Proof. intros Hty. unfold blocksByUid. rewrite Hty. reflexivity. Qed.

Lemma switch_map (state : ref blocks) (a : action) (n : loc) :
  Action.type a = "SWITCH_BLOCK_TYPE" →
  blocksByUid (Some state) a n
  = Ok (Ref n (<[to_key (Action.uid a) := block_obj <$> Action.block a]>
                 (obj state))) (S n).
Proof. intros Hty. unfold blocksByUid. rewrite Hty. reflexivity. Qed.

Lemma initial_content_new (n : loc) :
  initial_content n
  = Ok (Content.Make (VObj n) (Ref (S n) ∅) (Ref (S (S n)) [])) (S (S (S n))).
Proof. reflexivity. Qed.

Lemma initial_content_consistent (c : content) (n n' : loc) :
  initial_content n = Ok c n' → content_consistent c.
Proof.
  rewrite initial_content_new. intros [= <- _].
  apply consistent_iff. intros x. simpl. rewrite dom_empty_L. split.
  - by intros ?%elem_of_nil.
  - by intros (k & _ & ?%elem_of_empty).
Qed.

(** C1, as stated, fails: updating a block that is not in the document
    adds a key to the block map and leaves [blockOrder] as it is. *)
Lemma update_of_unknown_block_breaks_consistency :
  order_after [] = Some []
  ∧ keys_after [] = Some ∅
  ∧ consistent_after []
  ∧ order_after [UpdateBlock "x" ∅] = Some []
  ∧ keys_after [UpdateBlock "x" ∅] = Some {["x"]}
  ∧ ¬ consistent_after [UpdateBlock "x" ∅].
Proof.
  split; [reflexivity|]. split; [reflexivity|]. split.
  { by apply (initial_content_consistent _ 0%nat 3%nat). }
  split; [reflexivity|]. split; [reflexivity|].
  unfold consistent_after.
  assert (run_events [UpdateBlock "x" ∅] 0%nat
          = Ok (Content.Make (VObj 0%nat) (Ref 3%nat {["x" := Some ∅]})
                  (Ref 2%nat [])) 4%nat) as -> by reflexivity.
  unfold content_consistent. simpl. rewrite consistent_iff. intros Hc.
  assert (Some "x" ∈ ([] : order)) as Hin.
  { apply Hc. exists "x". split; [done|]. rewrite dom_singleton_L.
    by apply elem_of_singleton. }
  by apply elem_of_nil in Hin.
Qed.

(** The transition on an event aimed at a block of the document (a removal:
    of a uid taken as a key) returns, and keeps the identifiers of the
    block map and of [blockOrder] the same. *)
Lemma event_keeps_consistent (c : content) (e : event) (n : loc) :
  content_consistent c →
  target_present c e →
  ∃ c' n', slices c (action_of e) n = Ok c' n' ∧ content_consistent c'.
Proof.
  intros Hc Ht. unfold content_consistent in *.
  destruct (post_returns (Content.post c) (action_of e) n) as (p & n1 & Hp).
  assert (∀ uid, target e = Some uid → Some uid ∈ obj (Content.blockOrder c))
    as Hordered.
  { intros uid Hk%Ht. apply (proj1 (consistent_iff _ _) Hc). eauto. }
  assert (∀ uid, target e = Some uid →
            Action.type (action_of e) = "MOVE_BLOCK_UP"
            ∨ Action.type (action_of e) = "MOVE_BLOCK_DOWN" →
            Action.uid (action_of e) = Some uid →
            blocksByUid (Some (Content.blocksByUid c)) (action_of e) n1
            = Ok (Content.blocksByUid c) n1 →
            ∃ c' n', slices c (action_of e) n = Ok c' n'
                     ∧ consistent (obj (Content.blocksByUid c'))
                                  (obj (Content.blockOrder c'))) as Hmove.
  { intros uid Huid Hty Ha Hm.
    destruct (consistent_move (obj (Content.blocksByUid c))
                (Content.blockOrder c) (action_of e) n1 Hty) as (o' & n' & Ho & Hc');
      [rewrite Ha; by apply Hordered | done |].
    eexists _, _. split; [by eapply slices_ok|done]. }
  destruct e as [metadata nodes|uid updates|b anchor|uid b|uid|uid|uid
                |uid selected|uid hovered|uid config|uid|mode| |isNew
                |document isNew|error isNew].
  8-16: eexists _, _; split;
    [eapply slices_ok;
       [exact Hp
       |apply blocksByUid_other; not_handled
       |apply blockOrder_other; not_handled]
    |exact Hc].
  - eexists _, _. split;
      [eapply slices_ok; [exact Hp|by apply load_map|by apply load_order]|].
    apply consistent_load.
  - eexists _, _. split;
      [eapply slices_ok;
         [exact Hp|by apply update_map|apply blockOrder_other; not_handled]|].
    simpl. apply consistent_overwrite; [by apply Ht | done].
  - destruct (insert_block_order (Content.blockOrder c)
                (action_of (InsertBlock b anchor)) b (S n1) eq_refl eq_refl)
      as (pre & post & Hxs & Ho).
    eexists _, _. split;
      [eapply slices_ok; [exact Hp|by apply insert_block_map|exact Ho]|].
    simpl. apply consistent_insert. by rewrite <- Hxs.
  - eexists _, _. split;
      [eapply slices_ok;
         [exact Hp|by apply switch_map|apply blockOrder_other; not_handled]|].
    simpl. apply consistent_overwrite; [by apply Ht | done].
  - eexists _, _. split;
      [eapply slices_ok;
         [exact Hp|by apply remove_block_map|by apply remove_block_order]|].
    simpl. by apply consistent_remove.
  - apply (Hmove uid); [done|by left|done|].
    apply blocksByUid_other. not_handled.
  - apply (Hmove uid); [done|by right|done|].
    apply blocksByUid_other. not_handled.
Qed.

(** C1 (amended): an event of the document content slice keeps
    [set(blockOrder) == keys(blocksByUid)], provided that an update, a
    switch of type or a move is aimed at a block of the document, and that
    the uid of a removal is one that lodash's [omit] takes as a key (a key
    of the block map, or a string without dot and bracket): the transition
    returns, and the invariant holds in the resulting state. *)
Theorem content_stays_consistent (c : content) (e : event) (n : loc) :
  content_consistent c →
  target_present c e →
  ∃ c' n', slices c (action_of e) n = Ok c' n' ∧ content_consistent c'.
Proof.
  intros Hc Ht. unfold content_consistent in *.
  destruct (post_returns (Content.post c) (action_of e) n) as (p & n1 & Hp).
  assert (∀ uid, target e = Some uid → Some uid ∈ obj (Content.blockOrder c))
    as Hordered.
  { intros uid Hk%Ht. apply (proj1 (consistent_iff _ _) Hc). eauto. }
  assert (∀ uid, target e = Some uid →
            Action.type (action_of e) = "MOVE_BLOCK_UP"
            ∨ Action.type (action_of e) = "MOVE_BLOCK_DOWN" →
            Action.uid (action_of e) = Some uid →
            blocksByUid (Some (Content.blocksByUid c)) (action_of e) n1
            = Ok (Content.blocksByUid c) n1 →
            ∃ c' n', slices c (action_of e) n = Ok c' n'
                     ∧ consistent (obj (Content.blocksByUid c'))
                                  (obj (Content.blockOrder c'))) as Hmove.
  { intros uid Huid Hty Ha Hm.
    destruct (consistent_move (obj (Content.blocksByUid c))
                (Content.blockOrder c) (action_of e) n1 Hty) as (o' & n' & Ho & Hc');
      [rewrite Ha; by apply Hordered | done |].
    eexists _, _. split; [by eapply slices_ok|done]. }
  destruct e as [metadata nodes|uid updates|b anchor|uid b|uid|uid|uid
                |uid selected|uid hovered|uid config|uid|mode| |isNew
                |document isNew|error isNew].
  8-16: eexists _, _; split;
    [eapply slices_ok;
       [exact Hp
       |apply blocksByUid_other; not_handled
       |apply blockOrder_other; not_handled]
    |exact Hc].
  - eexists _, _. split;
      [eapply slices_ok; [exact Hp|by apply load_map|by apply load_order]|].
    apply consistent_load.
  - eexists _, _. split;
      [eapply slices_ok;
         [exact Hp|by apply update_map|apply blockOrder_other; not_handled]|].
    simpl. apply consistent_overwrite; [by apply Ht | done].
  - destruct (insert_block_order (Content.blockOrder c)
                (action_of (InsertBlock b anchor)) b (S n1) eq_refl eq_refl)
      as (pre & post & Hxs & Ho).
    eexists _, _. split;
      [eapply slices_ok; [exact Hp|by apply insert_block_map|exact Ho]|].
    simpl. apply consistent_insert. by rewrite <- Hxs.
  - eexists _, _. split;
      [eapply slices_ok;
         [exact Hp|by apply switch_map|apply blockOrder_other; not_handled]|].
    simpl. apply consistent_overwrite; [by apply Ht | done].
  - eexists _, _. split;
      [eapply slices_ok;
         [exact Hp|by apply remove_block_map|by apply remove_block_order]|].
    simpl. by apply consistent_remove.
  - apply (Hmove uid); [done|by left|done|].
    apply blocksByUid_other. not_handled.
  - apply (Hmove uid); [done|by right|done|].
    apply blocksByUid_other. not_handled.
Qed.

Lemma content_stays_consistent_witness :
  (∃ c' n',
     slices (Content.Make VNull (Ref 0%nat {["a" := Some ∅; "b" := Some ∅]})
               (Ref 1%nat [Some "a"; Some "b"]))
            (action_of (MoveBlockUp "b")) 2%nat = Ok c' n'
     ∧ content_consistent c')
  ∧ (∃ c' n',
       slices (Content.Make VNull (Ref 0%nat {["a" := Some ∅; "b" := Some ∅]})
                 (Ref 1%nat [Some "a"; Some "b"]))
              (action_of (RemoveBlock "a")) 2%nat = Ok c' n'
       ∧ content_consistent c').
Proof.
  split.
  - apply (content_stays_consistent
             (Content.Make VNull (Ref 0%nat {["a" := Some ∅; "b" := Some ∅]})
                (Ref 1%nat [Some "a"; Some "b"]))
             (MoveBlockUp "b") 2%nat).
    + vm_compute. reflexivity.
    + split.
      * intros uid [= <-]. simpl. apply elem_of_dom. eexists. reflexivity.
      * intros uid [=].
  - apply (content_stays_consistent
             (Content.Make VNull (Ref 0%nat {["a" := Some ∅; "b" := Some ∅]})
                (Ref 1%nat [Some "a"; Some "b"]))
             (RemoveBlock "a") 2%nat).
    + vm_compute. reflexivity.
    + split.
      * intros uid [=].
      * intros uid [= <-]. reflexivity.
Defined.

(** The invariant holds in every state the store reaches through events
    aimed at blocks of the document. *)
Lemma reachable_consistent (c : content) : reachable c → content_consistent c.
Proof.
  induction 1 as [c n n' Hinit | c e c' n n' _ IH Ht Hstep].
  - by eapply initial_content_consistent.
  - destruct (event_keeps_consistent c e n IH Ht) as (c'' & n'' & Hrun & Hc).
    rewrite Hstep in Hrun. by injection Hrun as -> _.
Qed.

(** The scenario of the specification: load [a, b]; insert [c] after [a];
    move [b] up; remove [a]. *)
Example scenario :
  let load := LoadDocument VNull [Block "a" ∅; Block "b" ∅] in
  let insert := InsertBlock (Block "c" ∅) (Some "a") in
  order_after [load] = Some [Some "a"; Some "b"]
  ∧ order_after [load; insert] = Some [Some "a"; Some "c"; Some "b"]
  ∧ order_after [load; insert; MoveBlockUp "b"]
    = Some [Some "a"; Some "b"; Some "c"]
  ∧ order_after [load; insert; MoveBlockUp "b"; RemoveBlock "a"]
    = Some [Some "b"; Some "c"]
  ∧ keys_after [load; insert; MoveBlockUp "b"; RemoveBlock "a"]
    = Some {["b"; "c"]}.
Proof. repeat split; vm_compute; reflexivity. Qed.

(** ** Loading a document resets the history *)

(** C3: whatever the history was, an [EDIT_POST] action that carries the
    block nodes gives a history whose [past] and [future] are empty. *)
Theorem load_clears_history (undoKind redoKind : string) (depth : option nat)
    (state : ref history) (a : action) (nodes : list block) (n : loc) :
  Action.type a = "EDIT_POST" →
  Action.blockNodes a = Some nodes →
  ∃ h n',
    editor undoKind redoKind depth (Some state) a n = Ok h n'
    ∧ past (obj h) = []
    ∧ future (obj h) = []
    ∧ obj (Content.blockOrder (present (obj h)))
      = (λ b, Some (block_uid b)) <$> nodes.
Proof.
  intros Hty Hnodes.
  destruct (post_returns (Content.post (present (obj state))) a n)
    as (p & n1 & Hp).
  unfold editor. cbn [default_param bind ret]. unfold bind.
  erewrite slices_ok; [|exact Hp|by apply load_map|by eapply load_order].
  rewrite decide_True by (rewrite Hty; apply list_elem_of_here).
  unfold new. by eexists _, _.
Qed.

Lemma load_clears_history_witness :
  ∃ h n',
    editor "UNDO" "REDO" (Some 2%nat)
      (Some (Ref 9%nat
               (History
                  [Content.Make VNull (Ref 0%nat ∅) (Ref 1%nat []);
                   Content.Make VNull (Ref 2%nat ∅) (Ref 3%nat [])]
                  (Content.Make VNull (Ref 4%nat ∅) (Ref 5%nat []))
                  [Content.Make VNull (Ref 6%nat ∅) (Ref 7%nat [])])))
      (action_of (LoadDocument VNull [Block "a" ∅])) 10%nat = Ok h n'
    ∧ past (obj h) = []
    ∧ future (obj h) = []
    ∧ obj (Content.blockOrder (present (obj h))) = [Some "a"].
Proof.
  apply (load_clears_history "UNDO" "REDO" (Some 2%nat) _
           (action_of (LoadDocument VNull [Block "a" ∅])) [Block "a" ∅] 10%nat);
    reflexivity.
Defined.

(** ** Selection *)

(** C7: selecting the block that is selected returns the state itself;
    deselecting it returns a new empty object; deselecting another block
    returns the state itself. *)
Theorem toggle_block_selected (state : ref selection) (a : action) (n : loc) :
  Action.type a = "TOGGLE_BLOCK_SELECTED" →
  (Action.selected a = true → Action.uid a = Selection.uid (obj state) →
     selectedBlock (Some state) a n = Ok state n)
  ∧ (Action.selected a = false → Action.uid a = Selection.uid (obj state) →
     selectedBlock (Some state) a n = Ok (Ref n Selection.empty) (S n))
  ∧ (Action.selected a = false → Action.uid a ≠ Selection.uid (obj state) →
     selectedBlock (Some state) a n = Ok state n).
Proof.
  intros Hty. unfold selectedBlock. rewrite Hty.
  cbn [default_param bind ret]. rewrite decide_True by done.
  repeat split; intros -> Huid; simpl; repeat case_decide;
    first [reflexivity | congruence].
Qed.

Lemma toggle_block_selected_witness :
  let kumquat := Ref 3%nat (Selection.Make (Some "kumquat") (Some true) None) in
  selectedBlock (Some kumquat) (action_of (SelectBlock "kumquat" true)) 4%nat
  = Ok kumquat 4%nat
  ∧ selectedBlock (Some kumquat) (action_of (SelectBlock "kumquat" false)) 4%nat
    = Ok (Ref 4%nat Selection.empty) 5%nat
  ∧ selectedBlock (Some kumquat) (action_of (SelectBlock "loquat" false)) 4%nat
    = Ok kumquat 4%nat.
Proof.
  intros kumquat.
  destruct (toggle_block_selected kumquat
              (action_of (SelectBlock "kumquat" true)) 4%nat eq_refl)
    as (Hsame & _ & _).
  destruct (toggle_block_selected kumquat
              (action_of (SelectBlock "kumquat" false)) 4%nat eq_refl)
    as (_ & Hclear & _).
  destruct (toggle_block_selected kumquat
              (action_of (SelectBlock "loquat" false)) 4%nat eq_refl)
    as (_ & _ & Hkeep).
  split; [|split].
  - apply Hsame; reflexivity.
  - apply Hclear; reflexivity.
  - apply Hkeep; [reflexivity | discriminate].
Defined.

(** A block that was not selected gets a new selection state. *)
Lemma select_other_block :
  selectedBlock (Some (Ref 3%nat (Selection.Make (Some "loquat") (Some true) None)))
                (action_of (SelectBlock "kumquat" true)) 4%nat
  = Ok (Ref 5%nat (Selection.Make (Some "kumquat") (Some false)
                     (Some (Ref 4%nat ∅)))) 6%nat.
Proof. reflexivity. Qed.

(** ** Hover *)

(** C8: a hover event sets the hovered identifier when its flag is set and
    clears it to [null] otherwise; selecting a block clears it; starting to
    type clears it. *)
Theorem hover_transitions (state : val) (a : action) :
  (Action.type a = "TOGGLE_BLOCK_HOVERED" →
     hoveredBlock state a
     = if Action.hovered a then of_str (Action.uid a) else VNull)
  ∧ (Action.type a = "TOGGLE_BLOCK_SELECTED" → Action.selected a = true →
     hoveredBlock state a = VNull)
  ∧ (Action.type a = "START_TYPING" → hoveredBlock state a = VNull).
Proof.
  unfold hoveredBlock. repeat split.
  - intros ->. reflexivity.
  - intros -> ->. reflexivity.
  - intros ->. reflexivity.
Qed.

Lemma hover_transitions_witness :
  hoveredBlock VNull (action_of (HoverBlock "kumquat" true)) = VStr "kumquat"
  ∧ hoveredBlock (VStr "x") (action_of (HoverBlock "kumquat" false)) = VNull
  ∧ hoveredBlock (VStr "kumquat") (action_of (SelectBlock "kumquat" true)) = VNull
  ∧ hoveredBlock (VStr "x") (action_of (StartTyping "kumquat")) = VNull.
Proof.
  destruct (hover_transitions VNull (action_of (HoverBlock "kumquat" true)))
    as (Hset & _ & _).
  destruct (hover_transitions (VStr "x")
              (action_of (HoverBlock "kumquat" false))) as (Hclear & _ & _).
  destruct (hover_transitions (VStr "kumquat")
              (action_of (SelectBlock "kumquat" true))) as (_ & Hselect & _).
  destruct (hover_transitions (VStr "x") (action_of (StartTyping "kumquat")))
    as (_ & _ & Htyping).
  split; [|split; [|split]].
  - apply Hset. reflexivity.
  - apply Hclear. reflexivity.
  - apply Hselect; reflexivity.
  - apply Htyping. reflexivity.
Defined.

(** ** Network status *)

(** C9: after a failed request the status is not requesting, successful,
    and carries the error and the [isNew] flag of the action. *)
Theorem request_failure_status (state : option (ref object)) (a : action)
    (n : loc) :
  Action.type a = "POST_UPDATE_REQUEST_FAILURE" →
  ∃ r n',
    api state a n = Ok r n'
    ∧ obj r = {[ "requesting" := VBool false;
                 "successful" := VBool true;
                 "error" := Action.error a;
                 "isNew" := Action.isNew a ]}
    ∧ obj r !! "successful" = Some (VBool true)
    ∧ obj r !! "error" = Some (Action.error a).
Proof.
  intros Hty. unfold api. rewrite Hty.
  destruct state as [state|]; eexists _, _; (split; [reflexivity|]);
    by repeat split.
Qed.

Lemma request_failure_status_witness :
  ∃ r n',
    api None (action_of (RequestFailed (VStr "offline") (VBool true))) 0%nat
    = Ok r n'
    ∧ obj r !! "successful" = Some (VBool true).
Proof.
  destruct (request_failure_status None
              (action_of (RequestFailed (VStr "offline") (VBool true))) 0%nat
              eq_refl) as (r & n' & Hrun & _ & Hok & _).
  by exists r, n'.
Defined.

(** ** Kinds a reducer does not handle, and totality *)

Lemma post_other (state : val) (a : action) (n : loc) :
  Action.type a ∉ post_kinds → state ≠ VUndef → post state a n = Ok state n.
Proof.
  intros Hty Hdef. unfold post, bind, ret. rewrite decide_False by done.
  unhandled Hty. done.
Qed.

Lemma selectedBlock_other (state : ref selection) (a : action) (n : loc) :
  Action.type a ∉ selectedBlock_kinds →
  selectedBlock (Some state) a n = Ok state n.
Proof.
  intros Hty. unfold selectedBlock. cbn [default_param bind ret].
  unhandled Hty. done.
Qed.

Lemma hoveredBlock_other (state : val) (a : action) :
  Action.type a ∉ hoveredBlock_kinds → state ≠ VUndef →
  hoveredBlock state a = state.
Proof.
  intros Hty Hdef. unfold hoveredBlock.
  rewrite (decide_False (P := state = VUndef)) by done.
  unhandled Hty. done.
Qed.

Lemma mode_other (state : val) (a : action) :
  Action.type a ∉ mode_kinds → state ≠ VUndef → mode state a = state.
Proof.
  intros Hty Hdef. unfold mode.
  rewrite (decide_False (P := state = VUndef)) by done.
  unhandled Hty. done.
Qed.

Lemma isSidebarOpened_other (state : val) (a : action) :
  Action.type a ∉ isSidebarOpened_kinds → state ≠ VUndef →
  isSidebarOpened state a = state.
Proof.
  intros Hty Hdef. unfold isSidebarOpened.
  rewrite (decide_False (P := state = VUndef)) by done.
  unhandled Hty. done.
Qed.

Lemma api_other (state : ref object) (a : action) (n : loc) :
  Action.type a ∉ api_kinds → api (Some state) a n = Ok state n.
Proof.
  intros Hty. unfold api. cbn [default_param bind ret].
  unhandled Hty. done.
Qed.

(** The only things the reducers dereference are [action.blockNodes] and
    [action.block]. *)
Section totality.
Variables (a : action) (n : loc).
Hypothesis Hnodes :
  Action.type a = "EDIT_POST" → is_Some (Action.blockNodes a).
Hypothesis Hblock :
  Action.type a = "INSERT_BLOCK" → is_Some (Action.block a).

Ltac run_cases :=
  unfold returns, default_param, select, bind, ret, new, throw;
  cbn beta iota;
  repeat case_decide;
  repeat match goal with
    | H : ?P → is_Some _, Hk : ?P |- _ => destruct (H Hk) as [? ->]
    end;
  repeat match goal with
    | |- context [match ?o with Some _ => _ | None => _ end] => destruct o
    | |- context [if ?b then _ else _] => destruct b
    end;
  eauto.

Lemma blocksByUid_returns state : returns (blocksByUid state a) n.
Proof. unfold blocksByUid. destruct state; run_cases. Qed.

Lemma blockOrder_returns state : returns (blockOrder state a) n.
Proof. unfold blockOrder. destruct state; run_cases. Qed.

Lemma selectedBlock_returns state : returns (selectedBlock state a) n.
Proof. unfold selectedBlock. destruct state; run_cases. Qed.

Lemma api_returns state : returns (api state a) n.
Proof. unfold api. destruct state; run_cases. Qed.
End totality.

Lemma action_of_nodes (e : event) :
  Action.type (action_of e) = "EDIT_POST" →
  is_Some (Action.blockNodes (action_of e)).
Proof. destruct e; intros Hty; try discriminate. by eexists. Qed.

Lemma action_of_block (e : event) :
  Action.type (action_of e) = "INSERT_BLOCK" →
  is_Some (Action.block (action_of e)).
Proof. destruct e; intros Hty; try discriminate. by eexists. Qed.

(** An action that lacks what its kind needs does raise. *)
Example load_without_nodes_throws :
  blockOrder (Some (Ref 0%nat [])) (Action.bare "EDIT_POST") 1%nat
  = Throw (TypeError "Cannot read property 'map' of undefined").
Proof. reflexivity. Qed.

(** C4: a reducer given an action whose kind it has no [case] for returns
    the state it was given, the same reference; and no reducer throws on an
    event of the declared vocabulary.  ([hoveredBlock], [mode] and
    [isSidebarOpened] neither allocate nor dereference: they are plain
    functions.) *)
Theorem unknown_kind_returns_state (a : action) (e : event) (n : loc) :
  (Action.type a ∉ post_kinds →
     ∀ state, state ≠ VUndef → post state a n = Ok state n)
  ∧ (Action.type a ∉ blocksByUid_kinds →
     ∀ state, blocksByUid (Some state) a n = Ok state n)
  ∧ (Action.type a ∉ blockOrder_kinds →
     ∀ state, blockOrder (Some state) a n = Ok state n)
  ∧ (Action.type a ∉ selectedBlock_kinds →
     ∀ state, selectedBlock (Some state) a n = Ok state n)
  ∧ (Action.type a ∉ hoveredBlock_kinds →
     ∀ state, state ≠ VUndef → hoveredBlock state a = state)
  ∧ (Action.type a ∉ mode_kinds →
     ∀ state, state ≠ VUndef → mode state a = state)
  ∧ (Action.type a ∉ isSidebarOpened_kinds →
     ∀ state, state ≠ VUndef → isSidebarOpened state a = state)
  ∧ (Action.type a ∉ api_kinds →
     ∀ state, api (Some state) a n = Ok state n)
  ∧ (∀ state, returns (post state (action_of e)) n)
  ∧ (∀ state, returns (blocksByUid state (action_of e)) n)
  ∧ (∀ state, returns (blockOrder state (action_of e)) n)
  ∧ (∀ state, returns (selectedBlock state (action_of e)) n)
  ∧ (∀ state, returns (api state (action_of e)) n).
Proof.
  pose proof (action_of_nodes e) as Hnodes.
  pose proof (action_of_block e) as Hblock.
  repeat split.
  - intros Hty state Hdef. by apply post_other.
  - intros Hty state. by apply blocksByUid_other.
  - intros Hty state. by apply blockOrder_other.
  - intros Hty state. by apply selectedBlock_other.
  - intros Hty state Hdef. by apply hoveredBlock_other.
  - intros Hty state Hdef. by apply mode_other.
  - intros Hty state Hdef. by apply isSidebarOpened_other.
  - intros Hty state. by apply api_other.
  - intros state. apply post_returns.
  - intros state. by apply blocksByUid_returns.
  - intros state. by apply blockOrder_returns.
  - intros state. by apply selectedBlock_returns.
  - intros state. by apply api_returns.
Qed.

Lemma unknown_kind_returns_state_witness :
  blockOrder (Some (Ref 0%nat [Some "a"])) (Action.bare "SAVE") 1%nat
  = Ok (Ref 0%nat [Some "a"]) 1%nat
  ∧ hoveredBlock (VStr "a") (Action.bare "SAVE") = VStr "a"
  ∧ returns (blockOrder (Some (Ref 0%nat [Some "a"]))
               (action_of (InsertBlock (Block "b" ∅) None))) 1%nat.
Proof.
  destruct (unknown_kind_returns_state (Action.bare "SAVE")
              (InsertBlock (Block "b" ∅) None) 1%nat)
    as (_ & _ & Horder & _ & Hhover & _ & _ & _ & _ & _ & Hreturns & _).
  split; [|split].
  - apply Horder. not_handled.
  - apply Hhover; [not_handled | discriminate].
  - apply Hreturns.
Defined.

(** * Further properties of the reducers *)

(** ** More on [slice] *)

Lemma slice_to_clamped {A} (xs : list A) (e : Z) :
  slice xs 0 (Some e)
  = take (Z.to_nat (relative (Z.of_nat (length xs)) e)) xs.
Proof.
  unfold slice. rewrite (relative_inside (Z.of_nat (length xs)) 0) by lia.
  rewrite Z.sub_0_r. change (Z.to_nat 0) with 0%nat. by rewrite drop_0.
Qed.

Lemma slice_from_beyond {A} (xs : list A) (i : Z) :
  0 ≤ i → slice xs i None = drop (Z.to_nat i) xs.
Proof.
  intros Hi. destruct (decide (i ≤ Z.of_nat (length xs))) as [Hle | Hgt].
  - apply slice_from. lia.
  - unfold slice, relative. destruct (Z.ltb_spec i 0); [lia|].
    rewrite Z.min_r by lia. rewrite Z.sub_diag. simpl.
    symmetry. apply drop_ge. lia.
Qed.

Lemma slice_but_last_two {A} (xs : list A) :
  slice xs 0 (Some (-2)) = take (length xs - 2)%nat xs.
Proof.
  rewrite slice_to_clamped. f_equal. unfold relative. simpl. lia.
Qed.

Lemma slice_but_last {A} (xs : list A) :
  slice xs 0 (Some (-1)) = take (length xs - 1)%nat xs.
Proof.
  rewrite slice_to_clamped. f_equal. unfold relative. simpl. lia.
Qed.

Lemma at_index_elem {A} (xs : list (option A)) (i : Z) (x : A) :
  at_index xs i = Some x → Some x ∈ xs.
Proof.
  unfold at_index. destruct (i <? 0); [done|].
  destruct (xs !! Z.to_nat i) as [y|] eqn:Hy; [|done].
  simpl. intros ->. by eapply list_elem_of_lookup_2.
Qed.

(** ** Moving a block that is not in the document *)

(** Moving up an identifier that is not in [blockOrder] makes the array
    grow: the two last entries are replaced by the identifier and
    [undefined], and the whole array follows.  Moving it down puts the
    identifier after a copy of the first entry. *)
Theorem move_absent_block (state : ref order) (a : action) (uid : string)
    (n : loc) :
  Action.uid a = Some uid →
  Some uid ∉ obj state →
  (Action.type a = "MOVE_BLOCK_UP" →
     blockOrder (Some state) a n
     = Ok (Ref n (take (length (obj state) - 2)%nat (obj state)
                    ++ [Some uid; None] ++ obj state)) (S n))
  ∧ (Action.type a = "MOVE_BLOCK_DOWN" →
     blockOrder (Some state) a n
     = Ok (Ref n (take (length (obj state) - 1)%nat (obj state)
                    ++ [at_index (obj state) 0; Some uid]
                    ++ drop 1 (obj state))) (S n)).
Proof.
  intros Huid Habsent. split; intros Hty.
  - unfold blockOrder. rewrite Hty, Huid. cbn [default_param bind ret].
    repeat (case_decide; try done).
    { exfalso. apply Habsent. by eapply at_index_elem. }
    rewrite indexOf_absent by done. change (-1 - 1) with (-2).
    change (-1 + 1) with 0.
    rewrite slice_but_last_two, slice_from_beyond by lia.
    reflexivity.
  - unfold blockOrder. rewrite Hty, Huid. cbn [default_param bind ret].
    repeat (case_decide; try done).
    { exfalso. apply Habsent. by eapply at_index_elem. }
    rewrite indexOf_absent by done. change (-1 + 1) with 0.
    change (-1 + 2) with 1.
    rewrite slice_but_last, slice_from_beyond by lia.
    reflexivity.
Qed.

Lemma move_absent_block_witness :
  blockOrder (Some (Ref 0%nat [Some "a"; Some "b"; Some "c"]))
             (action_of (MoveBlockUp "z")) 1%nat
  = Ok (Ref 1%nat [Some "a"; Some "z"; None; Some "a"; Some "b"; Some "c"])
       2%nat
  ∧ blockOrder (Some (Ref 0%nat [Some "a"; Some "b"; Some "c"]))
               (action_of (MoveBlockDown "z")) 1%nat
    = Ok (Ref 1%nat [Some "a"; Some "b"; Some "a"; Some "z"; Some "b"; Some "c"])
         2%nat.
Proof.
  destruct (move_absent_block (Ref 0%nat [Some "a"; Some "b"; Some "c"])
              (action_of (MoveBlockUp "z")) "z" 1%nat eq_refl) as [Hup _].
  { rewrite list_elem_of_In. simpl. intuition discriminate. }
  destruct (move_absent_block (Ref 0%nat [Some "a"; Some "b"; Some "c"])
              (action_of (MoveBlockDown "z")) "z" 1%nat eq_refl) as [_ Hdown].
  { rewrite list_elem_of_In. simpl. intuition discriminate. }
  split; [by apply Hup | by apply Hdown].
Defined.

(** ** Where a block is inserted *)

(** With an anchor that is in [blockOrder], the block goes right after the
    first occurrence of the anchor. *)
Theorem insert_after_anchor (state : ref order) (a : action) (b : block)
    (anchor : string) (pre post : order) (n : loc) :
  Action.type a = "INSERT_BLOCK" →
  Action.block a = Some b →
  Action.after a = Some anchor →
  anchor ≠ "" →
  obj state = pre ++ Some anchor :: post →
  Some anchor ∉ pre →
  blockOrder (Some state) a n
  = Ok (Ref n (pre ++ Some anchor :: Some (block_uid b) :: post)) (S n).
Proof.
  intros Hty Hb Hafter Hne Hxs Hpre.
  assert (obj state = (pre ++ [Some anchor]) ++ post) as Hxs'
    by (by rewrite Hxs, <- (assoc_L (++))).
  unfold blockOrder. rewrite Hty, Hb, Hafter.
  cbn [default_param bind ret]. repeat (case_decide; try done).
  unfold truthy_str, of_str, truthy. rewrite decide_False by done.
  replace (indexOf (obj state) (Some anchor)) with (Z.of_nat (length pre))
    by (by rewrite Hxs, indexOf_first).
  replace (Z.of_nat (length pre) + 1)
    with (Z.of_nat (length (pre ++ [Some anchor])))
    by (rewrite length_app; simpl; lia).
  rewrite Hxs', slice_to_app, slice_from_app.
  unfold new. by rewrite <- !(assoc_L (++)).
Qed.

Lemma insert_after_anchor_witness :
  blockOrder (Some (Ref 0%nat [Some "a"; Some "b"; Some "a"]))
             (action_of (InsertBlock (Block "c" ∅) (Some "a"))) 1%nat
  = Ok (Ref 1%nat ([] ++ [Some "a"; Some "c"; Some "b"; Some "a"])) 2%nat.
Proof.
  apply (insert_after_anchor (Ref 0%nat [Some "a"; Some "b"; Some "a"])
           (action_of (InsertBlock (Block "c" ∅) (Some "a"))) (Block "c" ∅)
           "a" [] [Some "b"; Some "a"] 1%nat); try reflexivity.
  - discriminate.
  - apply not_elem_of_nil.
Defined.

(** Without an anchor, or with the empty string as the anchor, the block
    goes to the end. *)
Theorem insert_without_anchor (state : ref order) (a : action) (b : block)
    (n : loc) :
  Action.type a = "INSERT_BLOCK" →
  Action.block a = Some b →
  Action.after a = None ∨ Action.after a = Some "" →
  blockOrder (Some state) a n
  = Ok (Ref n (obj state ++ [Some (block_uid b)])) (S n).
Proof.
  intros Hty Hb Hafter.
  unfold blockOrder. rewrite Hty, Hb.
  cbn [default_param bind ret]. repeat (case_decide; try done).
  assert (truthy_str (Action.after a) = false) as ->
    by (by destruct Hafter as [-> | ->]).
  rewrite slice_to, slice_from by lia.
  rewrite Nat2Z.id, take_ge, drop_ge by lia.
  reflexivity.
Qed.

Lemma insert_without_anchor_witness :
  blockOrder (Some (Ref 0%nat [Some "a"; Some "b"]))
             (action_of (InsertBlock (Block "c" ∅) (Some ""))) 1%nat
  = Ok (Ref 1%nat ([Some "a"; Some "b"] ++ [Some "c"])) 2%nat.
Proof.
  apply (insert_without_anchor (Ref 0%nat [Some "a"; Some "b"])
           (action_of (InsertBlock (Block "c" ∅) (Some ""))) (Block "c" ∅)
           1%nat); [reflexivity | reflexivity | by right].
Defined.

(** ** Moves undo each other *)

Section move_at.
Variables (a : action) (n : loc) (pre post : order) (y : option string).

Lemma move_up_at (state : ref order) (x : option string) :
  Action.type a = "MOVE_BLOCK_UP" →
  Action.uid a = x →
  obj state = pre ++ y :: x :: post →
  x ∉ pre → x ≠ y →
  blockOrder (Some state) a n = Ok (Ref n (pre ++ x :: y :: post)) (S n).
Proof.
  intros Hty <- Hxs Hpre Hy.
  assert (Action.uid a ∉ pre ++ [y]) as Hfront.
  { rewrite elem_of_app, elem_of_cons, elem_of_nil. intuition. }
  assert (obj state = (pre ++ [y]) ++ Action.uid a :: post) as Hxs1
    by (by rewrite Hxs, <- (assoc_L (++))).
  assert (obj state = (pre ++ [y; Action.uid a]) ++ post) as Hxs2
    by (by rewrite Hxs, <- (assoc_L (++))).
  assert (Action.uid a ≠ at_index (obj state) 0) as Hfirst.
  { rewrite Hxs. destruct pre as [|p pre']; simpl; rewrite at_index_0;
      [done|]. intros <-. apply Hpre. by left. }
  unfold blockOrder. rewrite Hty. cbn [default_param bind ret].
  repeat (case_decide; try done). unfold new. do 2 f_equal.
  replace (indexOf (obj state) (Action.uid a))
    with (Z.of_nat (length pre) + 1).
  2:{ rewrite Hxs1, indexOf_first by done. rewrite length_app. simpl. lia. }
  replace (Z.of_nat (length pre) + 1 - 1) with (Z.of_nat (length pre)) by lia.
  replace (Z.of_nat (length pre) + 1 + 1)
    with (Z.of_nat (length (pre ++ [y; Action.uid a])))
    by (rewrite length_app; simpl; lia).
  rewrite Hxs2 at 3. rewrite slice_from_app.
  rewrite Hxs. by rewrite slice_to_app, at_index_app.
Qed.

Lemma move_down_at (state : ref order) (x : option string) :
  Action.type a = "MOVE_BLOCK_DOWN" →
  Action.uid a = x →
  obj state = pre ++ x :: y :: post →
  x ∉ pre → x ≠ y → x ∉ post →
  blockOrder (Some state) a n = Ok (Ref n (pre ++ y :: x :: post)) (S n).
Proof.
  intros Hty <- Hxs Hpre Hy Hpost.
  assert (obj state = (pre ++ [Action.uid a]) ++ y :: post) as Hxs1
    by (by rewrite Hxs, <- (assoc_L (++))).
  assert (obj state = (pre ++ [Action.uid a; y]) ++ post) as Hxs2
    by (by rewrite Hxs, <- (assoc_L (++))).
  assert (Action.uid a ≠ last_of (obj state)) as Hlast.
  { destruct post as [|z post' _] using rev_ind.
    - rewrite Hxs1, last_of_snoc. done.
    - rewrite Hxs, !app_comm_cons, (assoc_L (++)), last_of_snoc.
      intros <-. apply Hpost. apply elem_of_app. right. by left. }
  unfold blockOrder. rewrite Hty. cbn [default_param bind ret].
  repeat (case_decide; try done). unfold new. do 2 f_equal.
  replace (indexOf (obj state) (Action.uid a)) with (Z.of_nat (length pre))
    by (by rewrite Hxs, indexOf_first).
  replace (Z.of_nat (length pre) + 1)
    with (Z.of_nat (length (pre ++ [Action.uid a])))
    by (rewrite length_app; simpl; lia).
  replace (Z.of_nat (length pre) + 2)
    with (Z.of_nat (length (pre ++ [Action.uid a; y])))
    by (rewrite length_app; simpl; lia).
  rewrite Hxs2 at 3. rewrite slice_from_app.
  rewrite Hxs1 at 2. rewrite at_index_app.
  rewrite Hxs. by rewrite slice_to_app.
Qed.
End move_at.

(** When the identifier is in [blockOrder] once, and not first, moving it
    up and then down gives back the order of the entries, in a new array;
    so does moving it down and then up when it is not last. *)
Theorem move_up_then_down (state : ref order) (up down : action)
    (pre post : order) (x y : option string) (n : loc) :
  Action.type up = "MOVE_BLOCK_UP" → Action.uid up = x →
  Action.type down = "MOVE_BLOCK_DOWN" → Action.uid down = x →
  x ∉ pre → x ≠ y → x ∉ post →
  (obj state = pre ++ y :: x :: post →
     ∃ moved, blockOrder (Some state) up n = Ok moved (S n)
              ∧ blockOrder (Some moved) down (S n)
                = Ok (Ref (S n) (obj state)) (S (S n)))
  ∧ (obj state = pre ++ x :: y :: post →
     ∃ moved, blockOrder (Some state) down n = Ok moved (S n)
              ∧ blockOrder (Some moved) up (S n)
                = Ok (Ref (S n) (obj state)) (S (S n))).
Proof.
  intros Hup Hux Hdown Hdx Hpre Hy Hpost. split; intros Hxs.
  - eexists. split.
    + by apply (move_up_at up n pre post y _ x).
    + rewrite Hxs. by apply (move_down_at down (S n) pre post y _ x).
  - eexists. split.
    + by apply (move_down_at down n pre post y _ x).
    + rewrite Hxs. by apply (move_up_at up (S n) pre post y _ x).
Qed.

Lemma move_up_then_down_witness :
  ∃ moved,
    blockOrder (Some (Ref 0%nat [Some "a"; Some "b"; Some "c"]))
               (action_of (MoveBlockUp "b")) 1%nat = Ok moved 2%nat
    ∧ blockOrder (Some moved) (action_of (MoveBlockDown "b")) 2%nat
      = Ok (Ref 2%nat [Some "a"; Some "b"; Some "c"]) 3%nat.
Proof.
  destruct (move_up_then_down (Ref 0%nat [Some "a"; Some "b"; Some "c"])
              (action_of (MoveBlockUp "b")) (action_of (MoveBlockDown "b"))
              [] [Some "c"] (Some "b") (Some "a") 1%nat
              eq_refl eq_refl eq_refl eq_refl) as [Hround _].
  - apply not_elem_of_nil.
  - discriminate.
  - rewrite list_elem_of_In. simpl. intuition discriminate.
  - by apply Hround.
Defined.

(** ** Inserting and removing *)

Lemma slices_inv (c c' : content) (a : action) (n n' : loc) :
  slices c a n = Ok c' n' →
  ∃ n1 n2,
    post (Content.post c) a n = Ok (Content.post c') n1
    ∧ blocksByUid (Some (Content.blocksByUid c)) a n1
      = Ok (Content.blocksByUid c') n2
    ∧ blockOrder (Some (Content.blockOrder c)) a n2
      = Ok (Content.blockOrder c') n'.
Proof.
  unfold slices, bind, ret.
  destruct (post _ _ _) as [p n1|] eqn:Hp; [|done].
  destruct (blocksByUid _ _ _) as [m n2|] eqn:Hm; [|done].
  destruct (blockOrder _ _ _) as [o n3|] eqn:Ho; [|done].
  intros [= <- <-]. by exists n1, n2.
Qed.

(** Removing a block that has just been inserted, and was not in the
    document, gives back the entries of the block map and of
    [blockOrder]. *)
Theorem insert_then_remove (c : content) (ins rem : action) (b : block)
    (n : loc) :
  Action.type ins = "INSERT_BLOCK" →
  Action.block ins = Some b →
  Action.type rem = "REMOVE_BLOCK" →
  Action.uid rem = Some (block_uid b) →
  block_uid b ∉ dom (obj (Content.blocksByUid c)) →
  Some (block_uid b) ∉ obj (Content.blockOrder c) →
  ∃ c1 n1 c2 n2,
    slices c ins n = Ok c1 n1
    ∧ slices c1 rem n1 = Ok c2 n2
    ∧ obj (Content.blocksByUid c2) = obj (Content.blocksByUid c)
    ∧ obj (Content.blockOrder c2) = obj (Content.blockOrder c).
Proof.
  intros Hins Hb Hrem Huid Hkey Hxs.
  destruct (post_returns (Content.post c) ins n) as (p1 & n1 & Hp1).
  destruct (insert_block_order (Content.blockOrder c) ins b (S n1) Hins Hb)
    as (pre & post & Hsplit & Ho).
  destruct (post_returns p1 rem (S (S n1))) as (p2 & n2 & Hp2).
  eexists _, _, _, _. split; [|split].
  - eapply slices_ok; [exact Hp1|by apply insert_block_map|exact Ho].
  - eapply slices_ok; [exact Hp2|by apply remove_block_map
                       |by apply remove_block_order].
  - simpl. rewrite Huid, Hsplit in *. simpl. split.
    + apply delete_insert_id. by apply not_elem_of_dom.
    + apply without_once; intros Hin; apply Hxs, elem_of_app; auto.
Qed.

Lemma insert_then_remove_witness :
  ∃ c1 n1 c2 n2,
    slices (Content.Make VNull (Ref 0%nat {["a" := Some ∅]}) (Ref 1%nat [Some "a"]))
           (action_of (InsertBlock (Block "b" ∅) None)) 2%nat = Ok c1 n1
    ∧ slices c1 (action_of (RemoveBlock "b")) n1 = Ok c2 n2
    ∧ obj (Content.blocksByUid c2) = {["a" := Some ∅]}
    ∧ obj (Content.blockOrder c2) = [Some "a"].
Proof.
  destruct (insert_then_remove
              (Content.Make VNull (Ref 0%nat {["a" := Some ∅]})
                 (Ref 1%nat [Some "a"]))
              (action_of (InsertBlock (Block "b" ∅) None))
              (action_of (RemoveBlock "b")) (Block "b" ∅) 2%nat
              eq_refl eq_refl eq_refl eq_refl)
    as (c1 & n1 & c2 & n2 & Hins & Hrem & Hmap & Horder).
  - simpl. rewrite dom_singleton_L, elem_of_singleton. discriminate.
  - simpl. rewrite list_elem_of_In. simpl. intuition discriminate.
  - by exists c1, n1, c2, n2.
Defined.

(** Removing a block that is not in the document, under a uid without dot
    and bracket (which lodash's [omit] takes as a key), changes no entry,
    and still returns a new block map and a new array: the references
    change. *)
Theorem remove_absent_block (map : ref blocks) (state : ref order)
    (a : action) (uid : string) (n : loc) :
  Action.type a = "REMOVE_BLOCK" →
  Action.uid a = Some uid →
  uid ∉ dom (obj map) →
  no_path_syntax uid = true →
  Some uid ∉ obj state →
  (addr map < n)%nat → (addr state < n)%nat →
  ∃ map' state',
    blocksByUid (Some map) a n = Ok map' (S n)
    ∧ blockOrder (Some state) a n = Ok state' (S n)
    ∧ obj map' = obj map ∧ obj state' = obj state
    ∧ ¬ same_ref map' map ∧ ¬ same_ref state' state.
Proof.
  intros Hty Huid Hkey Hplain Hxs Hmap Hstate.
  exists (Ref n (obj map)), (Ref n (obj state)).
  rewrite remove_block_map, remove_block_order by done.
  rewrite Huid. simpl. unfold omit.
  rewrite delete_id by (by apply not_elem_of_dom).
  rewrite without_absent by done.
  unfold same_ref. simpl. repeat split; lia.
Qed.

Lemma remove_absent_block_witness :
  ∃ map' state',
    blocksByUid (Some (Ref 0%nat {["a" := Some ∅]}))
                (action_of (RemoveBlock "z")) 2%nat = Ok map' 3%nat
    ∧ blockOrder (Some (Ref 1%nat [Some "a"]))
                 (action_of (RemoveBlock "z")) 2%nat = Ok state' 3%nat
    ∧ obj state' = [Some "a"]
    ∧ ¬ same_ref state' (Ref 1%nat [Some "a"]).
Proof.
  destruct (remove_absent_block (Ref 0%nat {["a" := Some ∅]})
              (Ref 1%nat [Some "a"]) (action_of (RemoveBlock "z")) "z" 2%nat
              eq_refl eq_refl)
    as (map' & state' & Hmap & Hstate & _ & Hxs & _ & Hnew).
  - simpl. rewrite dom_singleton_L, elem_of_singleton. discriminate.
  - reflexivity.
  - simpl. rewrite list_elem_of_In. simpl. intuition discriminate.
  - simpl. lia.
  - simpl. lia.
  - by exists map', state'.
Defined.

(** ** Every block once *)

Lemma move_permutation (state : ref order) (a : action) (n : loc) :
  Action.type a = "MOVE_BLOCK_UP" ∨ Action.type a = "MOVE_BLOCK_DOWN" →
  Action.uid a ∈ obj state →
  ∃ o' n', blockOrder (Some state) a n = Ok o' n' ∧ obj o' ≡ₚ obj state.
Proof.
  intros [Hty | Hty] Hin.
  - destruct (decide (Action.uid a = at_index (obj state) 0)) as [Hfirst | Hfirst].
    + exists state, n. split; [by apply move_up_first | done].
    + destruct (move_up_swaps state a n Hty Hin Hfirst)
        as (pre & y & post & Hxs & Hrun).
      eexists _, _. split; [exact Hrun|]. simpl. rewrite Hxs.
      apply Permutation_app_head, perm_swap.
  - destruct (decide (Action.uid a = last_of (obj state))) as [Hlast | Hlast].
    + exists state, n. split; [by apply move_down_last | done].
    + destruct (move_down_swaps state a n Hty Hin Hlast)
        as (pre & y & post & Hxs & Hrun).
      eexists _, _. split; [exact Hrun|]. simpl. rewrite Hxs.
      apply Permutation_app_head, perm_swap.
Qed.

(** [blockOrder] stays a permutation of the keys of the block map, without
    repetition, through every event that brings no identifier twice (and,
    for a removal, names a uid that lodash's [omit] takes as a key). *)
Theorem content_stays_ordered (c : content) (e : event) (n : loc) :
  content_ordered c →
  admissible c e →
  ∃ c' n', slices c (action_of e) n = Ok c' n' ∧ content_ordered c'.
Proof.
  intros [Hc Hnodup] [Ht Hfresh].
  destruct (event_keeps_consistent c e n Hc Ht) as (c' & n' & Hrun & Hc').
  exists c', n'. split; [done|]. split; [done|].
  apply slices_inv in Hrun as (n1 & n2 & _ & _ & Ho).
  assert (∀ uid, uid ∈ dom (obj (Content.blocksByUid c)) →
            Some uid ∈ obj (Content.blockOrder c)) as Hordered.
  { intros uid Hk. apply (proj1 (consistent_iff _ _) Hc). eauto. }
  assert (Action.type (action_of e) ∉ blockOrder_kinds →
          NoDup (obj (Content.blockOrder c'))) as Hother.
  { intros Hty. rewrite blockOrder_other in Ho by done.
    by injection Ho as <- _. }
  assert (∀ uid, target e = Some uid →
            Action.type (action_of e) = "MOVE_BLOCK_UP"
            ∨ Action.type (action_of e) = "MOVE_BLOCK_DOWN" →
            Action.uid (action_of e) = Some uid →
            NoDup (obj (Content.blockOrder c'))) as Hmove.
  { intros uid Huid Hty Ha.
    destruct (move_permutation (Content.blockOrder c) (action_of e) n2 Hty)
      as (o' & n'' & Ho' & Hperm).
    { rewrite Ha. by apply Hordered, Ht. }
    rewrite Ho' in Ho. injection Ho as <- _. by rewrite Hperm. }
  destruct e as [metadata nodes|uid updates|b anchor|uid b|uid|uid|uid
                |uid selected|uid hovered|uid config|uid|mode| |isNew
                |document isNew|error isNew].
  8-16: apply Hother; not_handled.
  - rewrite (load_order _ _ nodes) in Ho by done. injection Ho as <- _.
    simpl. rewrite (list_fmap_compose block_uid Some).
    apply NoDup_fmap_2; [apply _ | exact Hfresh].
  - apply Hother. not_handled.
  - destruct (insert_block_order (Content.blockOrder c)
                (action_of (InsertBlock b anchor)) b n2 eq_refl eq_refl)
      as (pre & post & Hxs & Ho').
    rewrite Ho' in Ho. injection Ho as <- _. simpl.
    rewrite <- Permutation_middle. apply NoDup_cons. split.
    + rewrite <- Hxs. intros Hin.
      apply (proj1 (consistent_iff _ _) Hc) in Hin as (k & [= <-] & Hk).
      by apply Hfresh.
    + by rewrite <- Hxs.
  - apply Hother. not_handled.
  - rewrite remove_block_order in Ho by done. injection Ho as <- _.
    simpl. by apply NoDup_filter.
  - by apply (Hmove uid); [|left|].
  - by apply (Hmove uid); [|right|].
Qed.

Lemma content_stays_ordered_witness :
  ∃ c' n',
    slices (Content.Make VNull (Ref 0%nat {["a" := Some ∅]}) (Ref 1%nat [Some "a"]))
           (action_of (InsertBlock (Block "b" ∅) (Some "a"))) 2%nat = Ok c' n'
    ∧ content_ordered c'.
Proof.
  apply (content_stays_ordered
           (Content.Make VNull (Ref 0%nat {["a" := Some ∅]}) (Ref 1%nat [Some "a"]))
           (InsertBlock (Block "b" ∅) (Some "a")) 2%nat).
  - split; [vm_compute; reflexivity|]. simpl. apply NoDup_singleton.
  - split; [split; intros uid [=]|]. simpl.
    rewrite dom_singleton_L, elem_of_singleton. discriminate.
Defined.

(** ** Loading a document *)

Lemma keyBy_snoc (nodes : list block) (b : block) :
  keyBy (nodes ++ [b]) = <[block_uid b := Some (block_obj b)]> (keyBy nodes).
Proof. unfold keyBy. by rewrite foldl_app. Qed.

(** Among nodes with the same uid, [keyBy] keeps the last. *)
Lemma keyBy_last (front back : list block) (b : block) :
  block_uid b ∉ block_uid <$> back →
  keyBy (front ++ b :: back) !! block_uid b = Some (Some (block_obj b)).
Proof.
  induction back as [|z back IH] using rev_ind; intros Hback.
  - rewrite keyBy_snoc. apply lookup_insert_eq.
  - rewrite fmap_app, elem_of_app in Hback. simpl in Hback.
    rewrite app_comm_cons, (assoc_L (++)), keyBy_snoc.
    rewrite lookup_insert_ne.
    + apply IH. tauto.
    + intros Heq. apply Hback. right. rewrite Heq. by left.
Qed.

(** Loading a document discards the blocks there were.  [blockOrder] is
    the uids of the nodes in the given order, duplicates included, while
    the block map has one entry per uid: the last node with that uid. *)
Theorem load_document (map : ref blocks) (state : ref order) (a : action)
    (nodes : list block) (n : loc) :
  Action.type a = "EDIT_POST" →
  Action.blockNodes a = Some nodes →
  ∃ map' state',
    blocksByUid (Some map) a n = Ok map' (S n)
    ∧ blockOrder (Some state) a n = Ok state' (S n)
    ∧ obj state' = (λ b, Some (block_uid b)) <$> nodes
    ∧ (∀ k, k ∈ dom (obj map') ↔ Some k ∈ obj state')
    ∧ (∀ front b back, nodes = front ++ b :: back →
         block_uid b ∉ block_uid <$> back →
         obj map' !! block_uid b = Some (Some (block_obj b))).
Proof.
  intros Hty Hnodes. eexists _, _.
  split; [by apply load_map|]. split; [by eapply load_order|].
  rewrite Hnodes. simpl. repeat split.
  - intros (b & Hb & <-)%keyBy_dom. apply list_elem_of_fmap. eauto.
  - intros (b & [= ->] & Hb)%list_elem_of_fmap. apply keyBy_dom. eauto.
  - intros front b back -> Hback. by apply keyBy_last.
Qed.

Lemma load_document_witness :
  ∃ map' state',
    blocksByUid (Some (Ref 0%nat {["old" := Some ∅]}))
                (action_of (LoadDocument VNull
                   [Block "a" {["n" := VStr "first"]}; Block "b" ∅;
                    Block "a" {["n" := VStr "second"]}])) 2%nat
    = Ok map' 3%nat
    ∧ obj map' !! "a"
      = Some (Some (block_obj (Block "a" {["n" := VStr "second"]})))
    ∧ blockOrder (Some (Ref 1%nat [Some "old"]))
                 (action_of (LoadDocument VNull
                    [Block "a" {["n" := VStr "first"]}; Block "b" ∅;
                     Block "a" {["n" := VStr "second"]}])) 2%nat
      = Ok state' 3%nat
    ∧ obj state' = [Some "a"; Some "b"; Some "a"].
Proof.
  destruct (load_document (Ref 0%nat {["old" := Some ∅]})
              (Ref 1%nat [Some "old"])
              (action_of (LoadDocument VNull
                 [Block "a" {["n" := VStr "first"]}; Block "b" ∅;
                  Block "a" {["n" := VStr "second"]}]))
              [Block "a" {["n" := VStr "first"]}; Block "b" ∅;
               Block "a" {["n" := VStr "second"]}] 2%nat eq_refl eq_refl)
    as (map' & state' & Hmap & Hstate & Hxs & _ & Hlast).
  exists map', state'. split; [exact Hmap|]. split; [|by split].
  apply (Hlast [Block "a" {["n" := VStr "first"]}; Block "b" ∅]
           (Block "a" {["n" := VStr "second"]}) []); [reflexivity|].
  apply not_elem_of_nil.
Defined.

(** ** Updating and replacing a block *)

(** An update writes the properties it carries over those of the block and
    keeps the other properties, the other blocks and the array of
    [blockOrder]; for an identifier that has no block, it makes an entry
    out of the updates alone. *)
Theorem update_block (map : ref blocks) (state : ref order) (a : action)
    (uid : string) (updates : object) (n : loc) :
  Action.type a = "UPDATE_BLOCK" →
  Action.uid a = Some uid →
  Action.updates a = Some updates →
  ∃ map',
    blocksByUid (Some map) a n = Ok map' (S n)
    ∧ (∀ old, obj map !! uid = Some (Some old) →
         ∃ new, obj map' !! uid = Some (Some new)
                ∧ ∀ p, new !! p = match updates !! p with
                                  | Some v => Some v
                                  | None => old !! p
                                  end)
    ∧ (obj map !! uid = None → obj map' !! uid = Some (Some updates))
    ∧ (∀ k, k ≠ uid → obj map' !! k = obj map !! k)
    ∧ blockOrder (Some state) a n = Ok state n.
Proof.
  intros Hty Huid Hupdates. eexists. split; [by apply update_map|].
  rewrite Huid, Hupdates. simpl. repeat split.
  - intros old Hold. eexists. split; [apply lookup_insert_eq|].
    intros p. unfold spread_entry. rewrite Hold. simpl.
    rewrite lookup_union. by destruct (updates !! p), (old !! p).
  - intros Hnone. rewrite lookup_insert_eq. unfold spread_entry.
    rewrite Hnone. simpl. by rewrite (right_id_L ∅ (∪)).
  - intros k Hk. by apply lookup_insert_ne.
  - apply blockOrder_other. rewrite Hty. not_handled.
Qed.

Lemma update_block_witness :
  ∃ map',
    blocksByUid
      (Some (Ref 0%nat {["kumquat" := Some {["uid" := VStr "kumquat";
                                              "attributes" := VObj 7%nat]}]}))
      (action_of (UpdateBlock "kumquat" {["attributes" := VObj 8%nat]})) 2%nat
    = Ok map' 3%nat
    ∧ ∃ new, obj map' !! "kumquat" = Some (Some new)
             ∧ new !! "attributes" = Some (VObj 8%nat)
             ∧ new !! "uid" = Some (VStr "kumquat").
Proof.
  destruct (update_block
              (Ref 0%nat {["kumquat" := Some {["uid" := VStr "kumquat";
                                               "attributes" := VObj 7%nat]}]})
              (Ref 1%nat [Some "kumquat"])
              (action_of (UpdateBlock "kumquat" {["attributes" := VObj 8%nat]}))
              "kumquat" {["attributes" := VObj 8%nat]} 2%nat
              eq_refl eq_refl eq_refl)
    as (map' & Hrun & Hmerge & _).
  exists map'. split; [exact Hrun|].
  destruct (Hmerge {["uid" := VStr "kumquat"; "attributes" := VObj 7%nat]}
              eq_refl) as (new & Hnew & Hprops).
  exists new. split; [exact Hnew|]. split; rewrite Hprops; reflexivity.
Defined.

(** A switch of type stores the given block under [action.uid], whatever
    the uid of that block is, and keeps the other blocks and the array of
    [blockOrder]: the block keeps its position. *)
Theorem switch_block_type (map : ref blocks) (state : ref order) (a : action)
    (uid : string) (b : block) (n : loc) :
  Action.type a = "SWITCH_BLOCK_TYPE" →
  Action.uid a = Some uid →
  Action.block a = Some b →
  ∃ map',
    blocksByUid (Some map) a n = Ok map' (S n)
    ∧ obj map' !! uid = Some (Some (block_obj b))
    ∧ block_obj b !! "uid" = Some (VStr (block_uid b))
    ∧ (∀ k, k ≠ uid → obj map' !! k = obj map !! k)
    ∧ blockOrder (Some state) a n = Ok state n.
Proof.
  intros Hty Huid Hb. eexists. split; [by apply switch_map|].
  rewrite Huid, Hb. simpl. repeat split.
  - apply lookup_insert_eq.
  - apply lookup_insert_eq.
  - intros k Hk. by apply lookup_insert_ne.
  - apply blockOrder_other. rewrite Hty. not_handled.
Qed.

Lemma switch_block_type_witness :
  ∃ map',
    blocksByUid (Some (Ref 0%nat {["chicken" := Some ∅]}))
                (action_of (ReplaceBlock "chicken" (Block "ribs" ∅))) 2%nat
    = Ok map' 3%nat
    ∧ obj map' !! "chicken" = Some (Some (block_obj (Block "ribs" ∅)))
    ∧ blockOrder (Some (Ref 1%nat [Some "chicken"]))
                 (action_of (ReplaceBlock "chicken" (Block "ribs" ∅))) 2%nat
      = Ok (Ref 1%nat [Some "chicken"]) 2%nat.
Proof.
  destruct (switch_block_type (Ref 0%nat {["chicken" := Some ∅]})
              (Ref 1%nat [Some "chicken"])
              (action_of (ReplaceBlock "chicken" (Block "ribs" ∅)))
              "chicken" (Block "ribs" ∅) 2%nat eq_refl eq_refl eq_refl)
    as (map' & Hrun & Hentry & _ & _ & Horder).
  by exists map'.
Defined.

(** ** More on the selection *)

Lemma selection_ok_typing (s : selection) :
  selection_ok s → Selection.typing s = Some true → is_Some (Selection.uid s).
Proof. intros [-> | (Huid & _)]; [done | by intros _]. Qed.

(** Through every event of the vocabulary the selection state is [{}] or
    has a uid, a typing flag and a focus: it never says that the user is
    typing without naming a block. *)
Theorem selection_stays_ok (state : option (ref selection)) (e : event)
    (n : loc) :
  (∀ s, state = Some s → selection_ok (obj s)) →
  ∃ s' n',
    selectedBlock state (action_of e) n = Ok s' n'
    ∧ selection_ok (obj s')
    ∧ (Selection.typing (obj s') = Some true → is_Some (Selection.uid (obj s'))).
Proof.
  intros Hok.
  assert (∃ s' n', selectedBlock state (action_of e) n = Ok s' n'
                   ∧ selection_ok (obj s')) as (s' & n' & Hrun & Hs').
  { assert (∀ u t f, selection_ok (Selection.Make (Some u) (Some t) (Some f)))
      as Hfull by (intros; right; eauto).
    destruct state as [s|].
    - specialize (Hok s eq_refl). destruct s as [l [u t f]].
      destruct e; unfold selectedBlock, select, bind, ret, new, default_param;
        simpl in *; repeat case_decide; simplify_eq;
        try destruct selected; try destruct config;
        simpl; eexists _, _; (split; [reflexivity|]); simpl;
        try done; try apply Hfull; try by left.
      all: destruct Hok as [Hempty | (_ & [t' Ht] & [f' Hf])];
        [discriminate Hempty|]; simpl in Ht, Hf; subst; apply Hfull.
    - destruct e; unfold selectedBlock, select, bind, ret, new, default_param;
        simpl; repeat case_decide; simplify_eq;
        try destruct selected; try destruct config;
        simpl; eexists _, _; (split; [reflexivity|]); simpl;
        try done; try apply Hfull; by left. }
  exists s', n'. split; [done|]. split; [done|].
  by apply selection_ok_typing.
Qed.

Lemma selection_stays_ok_witness :
  ∃ s' n',
    selectedBlock (Some (Ref 3%nat (Selection.Make (Some "ribs") (Some false)
                                      (Some (Ref 2%nat ∅)))))
                  (action_of (StartTyping "ribs")) 4%nat = Ok s' n'
    ∧ selection_ok (obj s')
    ∧ (Selection.typing (obj s') = Some true → is_Some (Selection.uid (obj s'))).
Proof.
  apply (selection_stays_ok
           (Some (Ref 3%nat (Selection.Make (Some "ribs") (Some false)
                               (Some (Ref 2%nat ∅)))))
           (StartTyping "ribs") 4%nat).
  intros s [= <-]. right. simpl. eauto.
Defined.

(** Moving the selected block returns the selection state itself, moving
    another block selects it.  Inserting a block always makes a new
    selection state that is not typing, even when the uid of the block is
    the selected one. *)
Theorem selection_follows_block (state : ref selection) (a : action)
    (n : loc) :
  (Action.type a = "MOVE_BLOCK_UP" ∨ Action.type a = "MOVE_BLOCK_DOWN" →
     (Action.uid a = Selection.uid (obj state) →
        selectedBlock (Some state) a n = Ok state n)
     ∧ (Action.uid a ≠ Selection.uid (obj state) →
        selectedBlock (Some state) a n
        = Ok (Ref (S n) (Selection.Make (Action.uid a) (Some false)
                           (Some (Ref n ∅)))) (S (S n))))
  ∧ (Action.type a = "INSERT_BLOCK" →
     ∀ b, Action.block a = Some b →
       selectedBlock (Some state) a n
       = Ok (Ref (S n) (Selection.Make (Some (block_uid b)) (Some false)
                          (Some (Ref n ∅)))) (S (S n))).
Proof.
  split.
  - intros Hty. unfold selectedBlock. cbn [default_param bind ret].
    rewrite (decide_True (P := _ ∨ _)) by done.
    rewrite decide_False by (destruct Hty as [-> | ->]; discriminate).
    split; intros Huid; [by rewrite decide_True | by rewrite decide_False].
  - intros Hty b Hb. unfold selectedBlock. rewrite Hty, Hb. reflexivity.
Qed.

Lemma selection_follows_block_witness :
  let ribs := Ref 3%nat (Selection.Make (Some "ribs") (Some true) None) in
  selectedBlock (Some ribs) (action_of (MoveBlockUp "ribs")) 4%nat = Ok ribs 4%nat
  ∧ selectedBlock (Some ribs) (action_of (InsertBlock (Block "ribs" ∅) None)) 4%nat
    = Ok (Ref 5%nat (Selection.Make (Some "ribs") (Some false)
                       (Some (Ref 4%nat ∅)))) 6%nat.
Proof.
  intros ribs.
  destruct (selection_follows_block ribs (action_of (MoveBlockUp "ribs")) 4%nat)
    as [Hmove _].
  destruct (selection_follows_block ribs
              (action_of (InsertBlock (Block "ribs" ∅) None)) 4%nat)
    as [_ Hinsert].
  split.
  - apply Hmove; [by left | reflexivity].
  - apply (Hinsert eq_refl (Block "ribs" ∅) eq_refl).
Defined.

(** A focus update selects the block and takes the focus of the action, or
    a new empty one; it keeps the typing flag when the block was the
    selected one and clears it otherwise. *)
Theorem update_focus (state : ref selection) (a : action) (n : loc) :
  Action.type a = "UPDATE_FOCUS" →
  ∃ s' n',
    selectedBlock (Some state) a n = Ok s' n'
    ∧ Selection.uid (obj s') = Action.uid a
    ∧ Selection.typing (obj s')
      = (if decide (Selection.uid (obj state) = Action.uid a)
         then Selection.typing (obj state) else Some false)
    ∧ (∀ config, Action.config a = Some config →
         Selection.focus (obj s') = Some config)
    ∧ (Action.config a = None → Selection.focus (obj s') = Some (Ref n ∅)).
Proof.
  intros Hty. unfold selectedBlock. rewrite Hty.
  destruct (Action.config a) as [config|]; eexists _, _;
    (split; [reflexivity|]); simpl; repeat split; congruence.
Qed.

Lemma update_focus_witness :
  ∃ s' n',
    selectedBlock (Some (Ref 3%nat (Selection.Make (Some "ribs") (Some true) None)))
                  (action_of (UpdateFocus "ribs" None)) 4%nat = Ok s' n'
    ∧ Selection.typing (obj s') = Some true
    ∧ Selection.focus (obj s') = Some (Ref 4%nat ∅).
Proof.
  destruct (update_focus
              (Ref 3%nat (Selection.Make (Some "ribs") (Some true) None))
              (action_of (UpdateFocus "ribs" None)) 4%nat eq_refl)
    as (s' & n' & Hrun & _ & Htyping & _ & Hfocus).
  exists s', n'. split; [exact Hrun|]. split; [exact Htyping|].
  by apply Hfocus.
Defined.

(** Starting to type selects the block and sets the typing flag; the focus
    is kept when the block was the selected one and is a new empty object
    otherwise.  The hovered block is cleared by the same action. *)
Theorem start_typing (state : ref selection) (hover : val) (a : action)
    (n : loc) :
  Action.type a = "START_TYPING" →
  ∃ s' n',
    selectedBlock (Some state) a n = Ok s' n'
    ∧ Selection.uid (obj s') = Action.uid a
    ∧ Selection.typing (obj s') = Some true
    ∧ Selection.focus (obj s')
      = (if decide (Action.uid a = Selection.uid (obj state))
         then Selection.focus (obj state) else Some (Ref n ∅))
    ∧ hoveredBlock hover a = VNull.
Proof.
  intros Hty. unfold selectedBlock, hoveredBlock. rewrite Hty.
  cbn [default_param bind ret].
  destruct (decide (Action.uid a = Selection.uid (obj state))) as [Heq | Hne].
  - exists (Ref n (Selection.Make (Selection.uid (obj state)) (Some true)
                     (Selection.focus (obj state)))), (S n).
    split.
    { rewrite (decide_False (P := Action.uid a ≠ Selection.uid (obj state)))
        by (intros Hne; by apply Hne).
      reflexivity. }
    simpl. by repeat split.
  - exists (Ref (S n) (Selection.Make (Action.uid a) (Some true)
                         (Some (Ref n ∅)))), (S (S n)).
    split.
    { rewrite (decide_True (P := Action.uid a ≠ Selection.uid (obj state)))
        by done.
      reflexivity. }
    simpl. by repeat split.
Qed.

Lemma start_typing_witness :
  ∃ s' n',
    selectedBlock (Some (Ref 3%nat (Selection.Make (Some "ribs") (Some false)
                                      (Some (Ref 2%nat ∅)))))
                  (action_of (StartTyping "chicken")) 4%nat = Ok s' n'
    ∧ Selection.uid (obj s') = Some "chicken"
    ∧ Selection.typing (obj s') = Some true
    ∧ hoveredBlock (VStr "ribs") (action_of (StartTyping "chicken")) = VNull.
Proof.
  destruct (start_typing
              (Ref 3%nat (Selection.Make (Some "ribs") (Some false)
                            (Some (Ref 2%nat ∅))))
              (VStr "ribs") (action_of (StartTyping "chicken")) 4%nat eq_refl)
    as (s' & n' & Hrun & Huid & Htyping & _ & Hhover).
  by exists s', n'.
Defined.

(** ** An inserted block is the selected block *)

(** The same insert action puts the block in the block map and in
    [blockOrder] and selects it: the selection names a block of the
    document. *)
Theorem insert_selects_block (map : option (ref blocks))
    (state : option (ref order)) (selected : option (ref selection))
    (a : action) (b : block) (n1 n2 n3 : loc) :
  Action.type a = "INSERT_BLOCK" →
  Action.block a = Some b →
  ∃ map' state' s' n1' n2' n3',
    blocksByUid map a n1 = Ok map' n1'
    ∧ blockOrder state a n2 = Ok state' n2'
    ∧ selectedBlock selected a n3 = Ok s' n3'
    ∧ Selection.uid (obj s') = Some (block_uid b)
    ∧ Some (block_uid b) ∈ obj state'
    ∧ obj map' !! block_uid b = Some (Some (block_obj b)).
Proof.
  intros Hty Hb.
  assert (∀ st : ref order, ∃ pre post,
            blockOrder (Some st) a (match state with Some _ => n2 | None => S n2 end)
            = Ok (Ref (match state with Some _ => n2 | None => S n2 end)
                    (pre ++ Some (block_uid b) :: post))
                 (S (match state with Some _ => n2 | None => S n2 end)))
    as Horder.
  { intros st. destruct (insert_block_order st a b
                           (match state with Some _ => n2 | None => S n2 end)
                           Hty Hb) as (pre & post & _ & Hrun). eauto. }
  destruct state as [st|].
  - destruct (Horder st) as (pre & post & Hrun).
    destruct map as [m|], selected as [s|]; eexists _, _, _, _, _, _;
      (split; [unfold blocksByUid; rewrite Hty, Hb; reflexivity|]);
      (split; [exact Hrun|]);
      (split; [unfold selectedBlock; rewrite Hty, Hb; reflexivity|]);
      simpl; (split; [done|]);
      (split; [apply elem_of_app; right; by left | apply lookup_insert_eq]).
  - destruct (Horder (Ref n2 [])) as (pre & post & Hrun).
    destruct map as [m|], selected as [s|]; eexists _, _, _, _, _, _;
      (split; [unfold blocksByUid; rewrite Hty, Hb; reflexivity|]);
      (split; [exact Hrun|]);
      (split; [unfold selectedBlock; rewrite Hty, Hb; reflexivity|]);
      simpl; (split; [done|]);
      (split; [apply elem_of_app; right; by left | apply lookup_insert_eq]).
Qed.

Lemma insert_selects_block_witness :
  ∃ map' state' s' n1' n2' n3',
    blocksByUid None (action_of (InsertBlock (Block "ribs" ∅) None)) 0%nat
    = Ok map' n1'
    ∧ blockOrder (Some (Ref 3%nat [Some "chicken"]))
                 (action_of (InsertBlock (Block "ribs" ∅) None)) 4%nat
      = Ok state' n2'
    ∧ selectedBlock None (action_of (InsertBlock (Block "ribs" ∅) None)) 5%nat
      = Ok s' n3'
    ∧ Selection.uid (obj s') = Some "ribs"
    ∧ Some "ribs" ∈ obj state'.
Proof.
  destruct (insert_selects_block None (Some (Ref 3%nat [Some "chicken"])) None
              (action_of (InsertBlock (Block "ribs" ∅) None)) (Block "ribs" ∅)
              0%nat 4%nat 5%nat eq_refl eq_refl)
    as (map' & state' & s' & n1' & n2' & n3' & Hm & Ho & Hs & Huid & Hin & _).
  by exists map', state', s', n1', n2', n3'.
Defined.

(** ** Sidebar, network status and post *)

(** Toggling the sidebar gives a boolean, and toggling twice gives back the
    truth value of the state: the state itself when it is a boolean or
    [undefined], which counts as closed. *)
Theorem toggle_sidebar_twice (state : val) (a : action) :
  Action.type a = "TOGGLE_SIDEBAR" →
  isSidebarOpened state a = VBool (negb (truthy state))
  ∧ isSidebarOpened (isSidebarOpened state a) a = VBool (truthy state)
  ∧ (∀ b, state = VBool b → isSidebarOpened (isSidebarOpened state a) a = state).
Proof.
  intros Hty.
  assert (∀ st, isSidebarOpened st a = VBool (negb (truthy st))) as Htoggle.
  { intros st. unfold isSidebarOpened. rewrite Hty.
    destruct (decide (st = VUndef)) as [-> | Hdef]; reflexivity. }
  split; [apply Htoggle|]. split.
  - rewrite !Htoggle. simpl. by destruct (truthy state).
  - intros b ->. rewrite !Htoggle. simpl. by destruct b.
Qed.

Lemma toggle_sidebar_twice_witness :
  isSidebarOpened VUndef (action_of ToggleSidebar) = VBool true
  ∧ isSidebarOpened (isSidebarOpened (VBool true) (action_of ToggleSidebar))
                    (action_of ToggleSidebar) = VBool true.
Proof.
  destruct (toggle_sidebar_twice VUndef (action_of ToggleSidebar) eq_refl)
    as (Hopen & _ & _).
  destruct (toggle_sidebar_twice (VBool true) (action_of ToggleSidebar) eq_refl)
    as (_ & _ & Htwice).
  split; [exact Hopen | exact (Htwice true eq_refl)].
Defined.

(** Whatever the network status was, a request action replaces it by a new
    object, allocated by this call, with the four properties [requesting],
    [successful], [error] and [isNew]; it is requesting after
    [POST_UPDATE_REQUEST] only, never requesting and successful at once,
    and carries an error after a failure only. *)
Theorem request_status (state : option (ref object)) (a : action) (n : loc) :
  Action.type a ∈ api_kinds →
  ∃ r n',
    api state a n = Ok r n'
    ∧ addr r = (match state with Some _ => n | None => S n end)
    ∧ n' = S (addr r)
    ∧ (∀ s, state = Some s → (addr s < n)%nat → ¬ same_ref r s)
    ∧ dom (obj r) = {["requesting"; "successful"; "error"; "isNew"]}
    ∧ obj r !! "isNew" = Some (Action.isNew a)
    ∧ obj r !! "requesting"
      = Some (VBool (bool_decide (Action.type a = "POST_UPDATE_REQUEST")))
    ∧ obj r !! "successful"
      = Some (VBool (bool_decide (Action.type a ≠ "POST_UPDATE_REQUEST")))
    ∧ obj r !! "error"
      = Some (if decide (Action.type a = "POST_UPDATE_REQUEST_FAILURE")
              then Action.error a else VNull).
Proof.
  intros Hty. apply list_elem_of_In in Hty. simpl in Hty.
  unfold api.
  destruct Hty as [Hty | [Hty | [Hty | []]]]; rewrite <- Hty;
    destruct state as [state|]; eexists _, _; (split; [reflexivity|]);
    simpl; (split; [reflexivity|]); (split; [reflexivity|]);
    (split; [intros s [= <-] Hlt; unfold same_ref; simpl; lia|]);
    (split; [|by repeat split]);
    unfold status; rewrite !dom_insert_L, dom_singleton_L;
    apply set_eq; intros k;
    rewrite !elem_of_union, !elem_of_singleton; tauto.
Qed.

Lemma request_status_witness :
  ∃ r n',
    api (Some (Ref 0%nat ∅))
        (action_of (RequestSucceeded (VObj 5%nat) (VBool false))) 1%nat = Ok r n'
    ∧ addr r = 1%nat
    ∧ obj r !! "requesting" = Some (VBool false)
    ∧ obj r !! "error" = Some VNull.
Proof.
  destruct (request_status (Some (Ref 0%nat ∅))
              (action_of (RequestSucceeded (VObj 5%nat) (VBool false))) 1%nat)
    as (r & n' & Hrun & Haddr & _ & _ & _ & _ & Hrequesting & _ & Herror).
  { apply list_elem_of_In. simpl. auto. }
  by exists r, n'.
Defined.

(** Loading a document keeps the post when the action carries none and
    takes the one it carries otherwise.  A successful request takes the
    post of the action even when there is none: the state is then
    [undefined], and the next action starts from a new empty object. *)
Theorem post_transitions (state : val) (a : action) (n : loc) :
  state ≠ VUndef →
  (Action.type a = "EDIT_POST" →
     post state a n
     = Ok (if truthy (Action.post a) then Action.post a else state) n)
  ∧ (Action.type a = "POST_UPDATE_REQUEST_SUCCESS" →
     post state a n = Ok (Action.post a) n)
  ∧ (∀ next, Action.type next ∉ post_kinds →
       post VUndef next n = Ok (VObj n) (S n)).
Proof.
  intros Hdef. unfold post, bind, ret. repeat split.
  - intros ->. by rewrite decide_False.
  - intros ->. by rewrite decide_False.
  - intros next Hty. rewrite decide_True by done. unfold new.
    unhandled Hty. done.
Qed.

Lemma post_transitions_witness :
  post (VObj 0%nat) (action_of (LoadDocument VUndef [])) 1%nat
  = Ok (VObj 0%nat) 1%nat
  ∧ post (VObj 0%nat) (action_of (RequestSucceeded VUndef VNull)) 1%nat
    = Ok VUndef 1%nat
  ∧ post VUndef (action_of ToggleSidebar) 1%nat = Ok (VObj 1%nat) 2%nat.
Proof.
  destruct (post_transitions (VObj 0%nat) (action_of (LoadDocument VUndef []))
              1%nat) as (Hload & _ & Hnext); [discriminate|].
  destruct (post_transitions (VObj 0%nat)
              (action_of (RequestSucceeded VUndef VNull)) 1%nat)
    as (_ & Hsuccess & _); [discriminate|].
  split; [by apply Hload|]. split; [by apply Hsuccess|].
  apply Hnext. not_handled.
Defined.

(** * The block category registry *)

Section category_facts.
Variable prototype : gset string.


(** A name that reads as defined, because it is registered or because the
    object inherits a property of that name, is refused: nothing is
    returned, the registry keeps its categories, and one error is
    logged. *)
Theorem register_taken_name (r : registry) (name : string)
    (settings : option object) (n : loc) :
  is_defined (getCategory prototype name r) = true →
  ∃ msg,
    registerCategory prototype (VStr name) settings r n
    = (None, Registry (categories r) (console r ++ [msg]), n)
    ∧ (∀ other, getCategory prototype other
                  (Registry (categories r) (console r ++ [msg]))
                = getCategory prototype other r).
Proof.
  intros Htaken. unfold registerCategory. unfold getCategory in Htaken.
  rewrite Htaken. eexists. split; [reflexivity|]. done.
Qed.

(** A name that is not a string is refused in the same way. *)
Theorem register_non_string (r : registry) (name : val)
    (settings : option object) (n : loc) :
  (∀ s, name ≠ VStr s) →
  registerCategory prototype name settings r n
  = (None,
     Registry (categories r) (console r ++ ["Category names must be strings."]),
     n).
Proof. intros Hname. destruct name; try done. by destruct (Hname s). Qed.

(** Unregistering a registered name returns the category that was
    registered, takes it out, and leaves the other names and the log. *)
Theorem unregister_category (r : registry) (name : string)
    (category : ref object) :
  categories r !! name = Some category →
  ∃ r',
    unregisterCategory prototype name r = (Category category, r')
    ∧ categories r' !! name = None
    ∧ (∀ other, other ≠ name →
         getCategory prototype other r' = getCategory prototype other r)
    ∧ console r' = console r.
Proof.
  intros Hname. unfold unregisterCategory, lookup_category. rewrite Hname.
  eexists. split; [reflexivity|]. unfold getCategory, lookup_category. simpl.
  repeat split.
  - apply lookup_delete_eq.
  - intros other Hother. by rewrite lookup_delete_ne.
Qed.

(** Unregistering a name that reads as undefined returns nothing, keeps
    the categories and logs one error. *)
Theorem unregister_unknown (r : registry) (name : string) :
  getCategory prototype name r = Undefined →
  ∃ msg,
    unregisterCategory prototype name r
    = (Undefined, Registry (categories r) (console r ++ [msg])).
Proof.
  intros Hname. unfold unregisterCategory. unfold getCategory in Hname.
  rewrite Hname. by eexists.
Qed.

(** Registering a free name and unregistering it gives back the category
    that the registration returned and the registry there was. *)
Theorem register_then_unregister (r : registry) (name : string)
    (settings : option object) (n : loc) :
  getCategory prototype name r = Undefined →
  ∃ category r',
    registerCategory prototype (VStr name) settings r n
    = (Some category, r', S n)
    ∧ unregisterCategory prototype name r' = (Category category, r).
Proof.
  intros Hfree. unfold registerCategory, unregisterCategory.
  unfold getCategory in Hfree. rewrite Hfree.
  eexists _, _. split; [reflexivity|].
  unfold lookup_category in *. simpl. rewrite lookup_insert_eq. simpl.
  destruct r as [cats log]. simpl in *. f_equal. f_equal.
  apply delete_insert_id. by destruct (cats !! name).
Qed.

(** A name of the prototype cannot be registered, whatever the registry
    holds, and unregistering it when it is not registered returns the
    inherited property without an error and without a change. *)
Theorem inherited_name (r : registry) (name : string)
    (settings : option object) (n : loc) :
  name ∈ prototype →
  (registerCategory prototype (VStr name) settings r n).1.1 = None
  ∧ categories (registerCategory prototype (VStr name) settings r n).1.2
    = categories r
  ∧ (categories r !! name = None →
     unregisterCategory prototype name r = (Inherited name, r)).
Proof.
  intros Hname.
  assert (is_defined (lookup_category prototype r name) = true) as Hdef.
  { unfold lookup_category. destruct (categories r !! name); [done|].
    by rewrite decide_True. }
  unfold registerCategory, unregisterCategory. rewrite Hdef. simpl.
  repeat split. intros Hnone. unfold lookup_category. rewrite Hnone.
  rewrite decide_True by done. destruct r as [cats log]. simpl in *.
  by rewrite delete_id.
Qed.
End category_facts.

Lemma Object_prototype_elem (name : string) :
  name ∈ Object_prototype
  ↔ In name ["constructor"; "hasOwnProperty"; "isPrototypeOf";
             "propertyIsEnumerable"; "toLocaleString"; "toString"; "valueOf";
             "__proto__"; "__defineGetter__"; "__defineSetter__";
             "__lookupGetter__"; "__lookupSetter__"].
Proof.
  unfold Object_prototype. by rewrite elem_of_list_to_set, list_elem_of_In.
Qed.

(** A name that is no property of [Object.prototype]. *)
Ltac not_inherited :=
  let H := fresh in
  intros H; apply Object_prototype_elem in H; simpl in H;
  intuition discriminate.


Lemma register_taken_name_witness :
  ∃ msg,
    registerCategory Object_prototype (VStr "common") None
      (Registry {["common" := Ref 0%nat ∅]} []) 1%nat
    = (None, Registry {["common" := Ref 0%nat ∅]} ([] ++ [msg]), 1%nat).
Proof.
  destruct (register_taken_name Object_prototype
              (Registry {["common" := Ref 0%nat ∅]} []) "common" None 1%nat)
    as (msg & Hrun & _); [reflexivity|].
  by exists msg.
Defined.

Lemma register_non_string_witness :
  registerCategory Object_prototype VNull None (Registry ∅ []) 0%nat
  = (None, Registry ∅ ([] ++ ["Category names must be strings."]), 0%nat).
Proof.
  apply (register_non_string Object_prototype (Registry ∅ []) VNull None 0%nat).
  discriminate.
Defined.

Lemma unregister_category_witness :
  ∃ r',
    unregisterCategory Object_prototype "common"
      (Registry {["common" := Ref 0%nat ∅]} [])
    = (Category (Ref 0%nat ∅), r')
    ∧ categories r' !! "common" = None.
Proof.
  destruct (unregister_category Object_prototype
              (Registry {["common" := Ref 0%nat ∅]} []) "common" (Ref 0%nat ∅))
    as (r' & Hrun & Hgone & _); [reflexivity|].
  by exists r'.
Defined.

Lemma unregister_unknown_witness :
  ∃ msg,
    unregisterCategory Object_prototype "layout" (Registry ∅ [])
    = (Undefined, Registry ∅ ([] ++ [msg])).
Proof.
  apply (unregister_unknown Object_prototype (Registry ∅ []) "layout").
  unfold getCategory, lookup_category. simpl.
  rewrite lookup_empty. apply decide_False. not_inherited.
Defined.

Lemma register_then_unregister_witness :
  ∃ category r',
    registerCategory Object_prototype (VStr "embed") None (Registry ∅ []) 0%nat
    = (Some category, r', 1%nat)
    ∧ unregisterCategory Object_prototype "embed" r'
      = (Category category, Registry ∅ []).
Proof.
  apply (register_then_unregister Object_prototype (Registry ∅ []) "embed"
           None 0%nat).
  unfold getCategory, lookup_category. simpl.
  rewrite lookup_empty. apply decide_False. not_inherited.
Defined.

Lemma inherited_name_witness :
  (registerCategory Object_prototype (VStr "constructor") None
     (Registry ∅ []) 0%nat).1.1 = None
  ∧ unregisterCategory Object_prototype "toString" (Registry ∅ [])
    = (Inherited "toString", Registry ∅ []).
Proof.
  destruct (inherited_name Object_prototype (Registry ∅ []) "constructor"
              None 0%nat) as (Hrefused & _ & _).
  { apply Object_prototype_elem. simpl. auto. }
  destruct (inherited_name Object_prototype (Registry ∅ []) "toString"
              None 0%nat) as (_ & _ & Hinherited).
  { apply Object_prototype_elem. simpl. auto 10. }
  split; [exact Hrefused | by apply Hinherited].
Defined.

(** ** What every registry satisfies *)

Lemma perform_ok (prototype : gset string) (state : registry * loc) (c : call) :
  registry_ok prototype state → registry_ok prototype (perform prototype state c).
Proof.
  destruct state as [r n]. intros Hok. destruct c as [name settings | name].
  - unfold perform, registerCategory. simpl.
    destruct name as [| |b|s|l]; try exact Hok.
    destruct (is_defined (lookup_category prototype r s)) eqn:Hdef;
      [exact Hok|].
    intros k category. simpl. rewrite lookup_insert.
    destruct (decide (s = k)) as [<- | Hne].
    + intros [= <-]. simpl. split; [|split; [lia|]].
      * intros Hin. unfold lookup_category in Hdef.
        destruct (categories r !! s); [done|]. by rewrite decide_True in Hdef.
      * destruct (default ∅ settings !! "name") as [v|] eqn:Hname.
        -- exists v. by apply lookup_union_Some_l.
        -- exists (VStr s). rewrite lookup_union_r by done.
           apply lookup_singleton_eq.
    + intros Hk. destruct (Hok k category Hk) as (? & ? & ?).
      simpl in *. repeat split; [done | lia | done].
  - unfold perform, unregisterCategory. simpl.
    destruct (negb (is_defined (lookup_category prototype r name)));
      [exact Hok|].
    intros k category. simpl. intros Hk.
    apply lookup_delete_Some in Hk as [_ Hk]. by apply (Hok k category).
Qed.

(** However the registry has been used, every registered category is under
    a name that [Object.prototype] does not have, and has a [name]
    property. *)
Theorem registry_always_ok (prototype : gset string) (calls : list call) :
  registry_ok prototype (registry_after prototype calls)
  ∧ ∀ name category,
      getCategory prototype name (registry_after prototype calls).1
      = Category category →
      (name ∉ prototype) ∧ is_Some (obj category !! "name").
Proof.
  assert (registry_ok prototype (registry_after prototype calls)) as Hok.
  { unfold registry_after.
    induction calls as [|c calls IH] using rev_ind.
    - intros name category. simpl. by rewrite lookup_empty.
    - rewrite foldl_app. simpl. by apply perform_ok. }
  split; [exact Hok|]. intros name category.
  unfold getCategory, lookup_category.
  destruct (categories _ !! name) as [c|] eqn:Hc.
  - intros [= <-]. destruct (Hok name c Hc) as (? & _ & ?). done.
  - by case_decide.
Qed.

(** ** The categories of the module *)

Lemma register_titled_new (prototype : gset string) (translate : string → val)
    (name title : string) (r : registry) (n : loc) :
  categories r !! name = None →
  name ∉ prototype →
  register_titled prototype translate name title (r, n)
  = (Registry (<[name := Ref n {["title" := translate title;
                                 "name" := VStr name]}]> (categories r))
       (console r),
     S n).
Proof.
  intros Hfree Hname. unfold register_titled, registerCategory, lookup_category.
  simpl. rewrite Hfree, decide_False by done. reflexivity.
Qed.

(** When the module is loaded, its five registrations succeed: the
    registry holds [common], [formatting], [layout], [widgets] and [embed],
    each with its name and its translated title, and no error has been
    logged. *)
Theorem loaded_categories (prototype : gset string) (translate : string → val) :
  (∀ name, name ∈ ["common"; "formatting"; "layout"; "widgets"; "embed"] →
     name ∉ prototype) →
  console (loaded_registry prototype translate).1 = []
  ∧ dom (getCategories (loaded_registry prototype translate).1)
    = {["common"; "formatting"; "layout"; "widgets"; "embed"]}
  ∧ (∀ name title,
       (name, title) ∈ [("common", "Common Blocks"); ("formatting", "Formatting");
                        ("layout", "Layout Blocks"); ("widgets", "Widgets");
                        ("embed", "Embed")] →
       ∃ category,
         getCategory prototype name (loaded_registry prototype translate).1
         = Category category
         ∧ obj category = {["title" := translate title; "name" := VStr name]}).
Proof.
  intros Hnames.
  assert (∀ name, In name ["common"; "formatting"; "layout"; "widgets"; "embed"] →
            name ∉ prototype) as Hin.
  { intros name Hname. by apply Hnames, list_elem_of_In. }
  unfold loaded_registry.
  rewrite (register_titled_new _ _ "common") by (try apply Hin; simpl; auto).
  rewrite (register_titled_new _ _ "formatting") by (try apply Hin; simpl; auto).
  rewrite (register_titled_new _ _ "layout") by (try apply Hin; simpl; auto).
  rewrite (register_titled_new _ _ "widgets") by (try apply Hin; simpl; auto).
  rewrite (register_titled_new _ _ "embed") by (try apply Hin; simpl; auto 10).
  simpl. split; [done|]. split.
  - unfold getCategories. simpl. rewrite !dom_insert_L, dom_empty_L.
    apply set_eq. intros k.
    rewrite !elem_of_union, !elem_of_singleton, elem_of_empty. tauto.
  - intros name title Hpair. apply list_elem_of_In in Hpair. simpl in Hpair.
    unfold getCategory, lookup_category. simpl.
    destruct Hpair as [[= <- <-] | [[= <- <-] | [[= <- <-] | [[= <- <-]
                      | [[= <- <-] | []]]]]]; eexists; split;
      try reflexivity; reflexivity.
Qed.

Lemma loaded_categories_witness :
  console (loaded_registry Object_prototype VStr).1 = []
  ∧ ∃ category,
      getCategory Object_prototype "layout" (loaded_registry Object_prototype VStr).1
      = Category category
      ∧ obj category = {["title" := VStr "Layout Blocks"; "name" := VStr "layout"]}.
Proof.
  destruct (loaded_categories Object_prototype VStr) as (Hlog & _ & Hget).
  - intros name Hname. apply list_elem_of_In in Hname. simpl in Hname.
    intros Hin. apply Object_prototype_elem in Hin. simpl in Hin.
    intuition (subst; discriminate).
  - split; [exact Hlog|]. apply Hget. apply list_elem_of_In. simpl. auto.
Defined.

Lemma registry_always_ok_witness :
  getCategory Object_prototype "common"
    (registry_after Object_prototype
       [Register (VStr "common") None; Register (VStr "toString") None;
        Unregister "layout"]).1
  = Category (Ref 0%nat {["name" := VStr "common"]})
  ∧ "common" ∉ Object_prototype.
Proof.
  assert (getCategory Object_prototype "common"
            (registry_after Object_prototype
               [Register (VStr "common") None; Register (VStr "toString") None;
                Unregister "layout"]).1
          = Category (Ref 0%nat {["name" := VStr "common"]})) as Hget
    by (vm_compute; reflexivity).
  split; [exact Hget|].
  apply (proj2 (registry_always_ok Object_prototype
                  [Register (VStr "common") None;
                   Register (VStr "toString") None; Unregister "layout"])
           "common" _ Hget).
Defined.

(** A call either goes through without logging, or is refused: then it
    logs one error, and neither changes a category nor allocates. *)
Theorem call_logs_or_changes (prototype : gset string)
    (state : registry * loc) (c : call) :
  console (perform prototype state c).1 = console state.1
  ∨ ∃ msg,
      console (perform prototype state c).1 = console state.1 ++ [msg]
      ∧ categories (perform prototype state c).1 = categories state.1
      ∧ (perform prototype state c).2 = state.2.
Proof.
  destruct state as [r n]. destruct c as [name settings | name].
  - unfold perform, registerCategory. simpl.
    destruct name as [| |b|s|l]; try (right; by eexists).
    destruct (is_defined (lookup_category prototype r s));
      [right; by eexists | by left].
  - unfold perform, unregisterCategory. simpl.
    destruct (negb (is_defined (lookup_category prototype r name)));
      [right; by eexists | by left].
Qed.
